(** * SpotiSonic configuration store: [spotisonic/config.py]

    A shallow embedding of the configuration module and the properties of
    its load / save / get / set / reset operations.

    The module keeps one JSON document at [CONFIG_PATH].  Its behaviour
    depends on two things outside the module: the file at that path and
    Python's [json] library.  Both are modelled explicitly:

    - the disk is the state of the one path the module touches ([disk]):
      whether its parent directory and the file exist, and what the file
      holds.  A file holds text, or bytes that are not text in the encoding
      [open] reads with ([content]); reading the latter raises
      [UnicodeDecodeError], which the module does not catch.
      [CONFIG_PATH] and [set_config_path] only choose which path that is.
      A directory at the path, or a file among its parents, is left to the
      second model below.  Permissions and a full disk are not modelled,
      and neither are the limits of the interpreter (recursion depth, the
      digits of an integer literal);
    - [json.dump] / [json.load] are an interface ([JsonCodec]) whose only
      assumed law is that a dumped value loads back unchanged.  The
      properties of the module are proved for every such codec.  A concrete
      codec ([PyJson], instance [py_json]) that prints and parses JSON text
      is proved to satisfy the law, and the properties are run on it.

    Python values are modelled by [json]: [None], [bool], [int], [str],
    lists and dictionaries keyed by strings.  Floats are outside the model.

    Python statements run in a state-and-exception monad over the disk;
    [try ... except] is [try_except].

    A second model ([Fs], [World], [Client]) puts the module in its world:
    a file system with other files and directories, the global
    [CONFIG_PATH] that [set_config_path] rebinds, and the [DEFAULT_CONFIG]
    object, which callers can alias and change.  It is shown to do what the
    one-path model does wherever that model applies, and carries the
    properties that need more than one path: what the module leaves alone,
    which errors it lets through, and what survives a change of path. *)

From stdpp Require Import gmap strings list fin_maps.
From Stdlib Require Import ZArith Ascii String.

Set Warnings "-register-all".

Local Open Scope Z_scope.
Local Open Scope string_scope.

(** ** Values *)

(** A Python value that [json.dump] accepts and [json.load] returns.  A
    dictionary is a finite map: Python compares dictionaries by their
    entries, not by insertion order. *)
Inductive json : Type :=
  | JNull
  | JBool (b : bool)
  | JInt (n : Z)
  | JStr (s : string)
  | JList (l : list json)
  | JObj (m : gmap string json).

Abbreviation dict := (gmap string json).

(** A scalar is a string, a number or a boolean (spec, section 3). *)
Definition is_scalar (v : json) : bool :=
  match v with
  | JBool _ | JInt _ | JStr _ => true
  | _ => false
  end.

(** A flat scalar mapping: every value is a scalar. *)
Definition flat_scalar (X : dict) : Prop :=
  map_Forall (λ _ v, is_scalar v = true) X.

(** ** The disk *)

(** What a regular file holds, as [open(path, 'r')] sees it: [Text text]
    when its bytes decode, to [text], in the encoding [open] uses (the
    locale's; UTF-8 on most systems), and [Bytes bytes] when they do not.
    [f.read()] returns the first and raises [UnicodeDecodeError] on the
    second.  Which bytes decode depends on the encoding and is not
    modelled: [Bytes] is the state of a file that does not decode. *)
Inductive content : Type :=
  | Text (text : string)
  | Bytes (bytes : list Byte.byte).

Coercion Text : string >-> content.

Implicit Types text : string.

(** The state of [CONFIG_PATH] on disk: its parent directory is missing, the
    directory is there but the file is not, or the file is there and holds
    text or undecodable bytes. *)
Inductive disk : Type :=
  | NoDir
  | NoFile
  | File (c : content).

(** No file exists at the path. *)
Definition absent (st : disk) : Prop :=
  match st with File _ => False | _ => True end.

Definition parent_exists (st : disk) : bool :=
  match st with NoDir => false | _ => true end.

(** ** Exceptions and the state-and-exception monad *)

Inductive exn : Type :=
  | FileNotFoundError
  | JSONDecodeError
  | UnicodeDecodeError
  | TypeError.

Inductive result (A : Type) : Type :=
  | Ok (a : A)
  | Raise (e : exn).
Arguments Ok {A} a.
Arguments Raise {A} e.

(** A Python statement sequence: it runs on a disk, returns or raises, and
    leaves a disk behind. *)
Definition M (A : Type) : Type := disk → result A * disk.

Definition ret {A} (a : A) : M A := λ st, (Ok a, st).

Definition raise {A} (e : exn) : M A := λ st, (Raise e, st).

Definition bind {A B} (m : M A) (k : A → M B) : M B :=
  λ st, match m st with
        | (Ok a, st') => k a st'
        | (Raise e, st') => (Raise e, st')
        end.

(** [try: body except ...: handler]; a handler that does not name the
    exception re-raises it, and an exception raised by a handler is not
    caught by its siblings. *)
Definition try_except {A} (body : M A) (handler : exn → M A) : M A :=
  λ st, match body st with
        | (Ok a, st') => (Ok a, st')
        | (Raise e, st') => handler e st'
        end.

Declare Scope py_scope.
Delimit Scope py_scope with py.
Notation "x <- m ;; k" := (bind m (λ x, k))
  (at level 100, m at next level, right associativity) : py_scope.
Notation "m ;; k" := (bind m (λ _, k))
  (at level 100, right associativity) : py_scope.
Local Open Scope py_scope.

(** What running [m] on [st] returns (or raises), and the disk it leaves. *)
Definition returned {A} (m : M A) (st : disk) : result A := fst (m st).
Definition disk_after {A} (m : M A) (st : disk) : disk := snd (m st).

(** ** File-system primitives at [CONFIG_PATH] *)

(** [open(CONFIG_PATH, 'r')]: the open file, as what it holds.  Nothing is
    decoded yet. *)
Definition open_read : M content :=
  λ st, match st with
        | File f => (Ok f, st)
        | _ => (Raise FileNotFoundError, st)
        end.

(** [os.makedirs(CONFIG_PATH.parent, exist_ok=True)]. *)
Definition makedirs : M unit :=
  λ st, match st with
        | NoDir => (Ok tt, NoFile)
        | _ => (Ok tt, st)
        end.

(** [open(CONFIG_PATH, 'w')] and writing [text]: the file is replaced in
    full; without the parent directory the open fails. *)
Definition open_write (text : string) : M unit :=
  λ st, match st with
        | NoDir => (Raise FileNotFoundError, st)
        | _ => (Ok tt, File text)
        end.

(** ** The [json] library *)

(** [json_dumps v] is the text [json.dump(v, f, indent=4)] writes;
    [json_loads text] is what [json.loads] returns on [text], [None] when
    it raises [JSONDecodeError]. *)
Class JsonCodec : Type := {
  json_dumps : json → string;
  json_loads : string → option json;
  json_loads_dumps : ∀ v, json_loads (json_dumps v) = Some v
}.

(** ** The module *)

(** [DEFAULT_CONFIG].  The module never mutates it: [load_config] and
    [reset_to_defaults] return copies or fresh dictionaries, and
    [set_config_value] updates the dictionary [load_config] returned. *)
Definition DEFAULT_CONFIG : dict :=
  <["default_preview_length" := JInt 30]>
  (<["default_shuffle" := JBool true]>
  (<["default_scrobble" := JBool true]>
  (<["min_liked_for_artist" := JInt 1]>
  (<["min_bookmarked_for_artist" := JInt 1]>
  (<["max_plays_for_new_artist" := JInt 0]> ∅))))).

(** [{**d1, **d2}]: the entries of [d2] win.  Unpacking a value that is not
    a mapping raises [TypeError]. *)
Definition dict_unpack (d1 : dict) (v : json) : M dict :=
  match v with
  | JObj d2 => ret (d2 ∪ d1)
  | _ => raise TypeError
  end.

(** The mapping [test_save_config] saves: it has none of the default keys. *)
Definition test_config : dict :=
  <["test_key" := JStr "test_value"]> (<["number_setting" := JInt 42]> ∅).

Section Config.
Context `{codec : JsonCodec}.

(** [json.load(f)], which is [json.loads(f.read())]: reading decodes the
    file, and raises [UnicodeDecodeError] on bytes that are not text. *)
Definition json_load (f : content) : M json :=
  match f with
  | Bytes _ => raise UnicodeDecodeError
  | Text text =>
      match json_loads text with
      | Some v => ret v
      | None => raise JSONDecodeError
      end
  end.

Definition save_config (config_dict : dict) : M unit :=
  makedirs ;;
  open_write (json_dumps (JObj config_dict)).

Definition load_config : M dict :=
  try_except
    (f <- open_read ;;
     loaded_config <- json_load f ;;
     dict_unpack DEFAULT_CONFIG loaded_config)
    (λ e, match e with
          | FileNotFoundError =>
              makedirs ;;
              save_config DEFAULT_CONFIG ;;
              ret DEFAULT_CONFIG
          | JSONDecodeError =>
              save_config DEFAULT_CONFIG ;;
              ret DEFAULT_CONFIG
          | _ => raise e
          end).

(** [get_config_value(key, default=None)]: an omitted [default] is
    [None]. *)
Definition get_config_value (key : string) (default : option json) : M json :=
  config <- load_config ;;
  ret (match config !! key with
       | Some v => v
       | None => match default with Some d => d | None => JNull end
       end).

Definition set_config_value (key : string) (value : json) : M unit :=
  config <- load_config ;;
  save_config (<[key := value]> config).

Definition reset_to_defaults : M dict :=
  save_config DEFAULT_CONFIG ;;
  ret DEFAULT_CONFIG.

End Config.

(** ** File states *)

Section FileStates.
Context `{codec : JsonCodec}.

(** How [load_config] sees the disk: no file, a file whose text does not
    parse, a file holding a mapping, a file holding some other JSON
    value, or a file whose bytes are not text. *)
Inductive file_state : Type :=
  | Absent
  | Malformed
  | Valid (D : dict)
  | NotAMapping (v : json)
  | NotText.

Definition classify (st : disk) : file_state :=
  match st with
  | File (Text text) =>
      match json_loads text with
      | None => Malformed
      | Some (JObj D) => Valid D
      | Some v => NotAMapping v
      end
  | File (Bytes _) => NotText
  | _ => Absent
  end.

(** The file states of the spec's data model: absent, malformed (text that
    is not valid JSON), or a valid configuration document (a mapping at
    the root). *)
Definition config_state (st : disk) : bool :=
  match classify st with
  | NotAMapping _ | NotText => false
  | _ => true
  end.

(** The persisted document: the mapping the file holds, if it holds one. *)
Definition persisted (st : disk) : dict :=
  match classify st with
  | Valid D => D
  | _ => ∅
  end.

(** The disk [load_config] leaves: a file that was absent or malformed now
    holds the defaults, any other disk is untouched (a file that is not a
    mapping or not text included). *)
Definition healed (st : disk) : disk :=
  match classify st with
  | Absent | Malformed => File (json_dumps (JObj DEFAULT_CONFIG))
  | _ => st
  end.

(** The exception a load lets through, if any: [TypeError] from a file that
    holds JSON whose root is not a mapping, [UnicodeDecodeError] from a
    file whose bytes are not text. *)
Definition escaping (st : disk) : option exn :=
  match classify st with
  | NotAMapping _ => Some TypeError
  | NotText => Some UnicodeDecodeError
  | _ => None
  end.

End FileStates.

(** ** A JSON codec

    The text format of Python's [json] module for the values of [json]:
    [json.dump(v, f, indent=4)] with its default [ensure_ascii=True], and
    [json.loads].  Characters are code points 0 to 255.  Dictionary entries
    are written in the order of the finite map, not in insertion order (the
    spec does not require a stable key order).

    The codec is that of Python on the documents [json] can hold, and on
    the texts Python rejects.  A number literal with a fraction or an
    exponent, [NaN] and [Infinity] denote floats, and a [\u] escape above
    [00ff] denotes a character the model has no code for: [json.loads]
    accepts such a document and [loads] has no value to give for it.
    [accepts] recognises every document [json.loads] accepts, so that a
    text [loads] gives nothing for is known to be rejected by Python
    ([faithful_on]) or to lie outside the model.  The properties of the
    module do not depend on this codec; it serves to run them on files
    that hold no float. *)
Module PyJson.

Definition dquote : ascii := "034"%char.
Definition backslash : ascii := "092"%char.
Definition newline : ascii := "010"%char.

Definition code (c : ascii) : N := N_of_ascii c.

(** *** Printing *)

Definition digit_char (d : N) : ascii := ascii_of_N (48 + d).

(** The decimal digits of [n], most significant first, in front of
    [tail]. *)
Fixpoint digits_fuel (fuel : nat) (n : N) (tail : string) : string :=
  match fuel with
  | O => tail
  | S fuel' =>
      let tail' := String (digit_char (n mod 10)) tail in
      if (n <? 10)%N then tail' else digits_fuel fuel' (n / 10) tail'
  end.

Definition digits (n : N) : string :=
  digits_fuel (S (N.to_nat (N.log2 n))) n "".

Definition dump_int (n : Z) : string :=
  if (n <? 0)%Z then String "-" (digits (Z.to_N (- n))) else digits (Z.to_N n).

Definition hex_char (d : N) : ascii :=
  if (d <? 10)%N then ascii_of_N (48 + d) else ascii_of_N (87 + d).

(** One character of a string literal: the short escapes, a printable
    ASCII character as it is, and a [\u00XX] escape for the rest. *)
Definition escape_char (c : ascii) : string :=
  if Ascii.eqb c dquote then String backslash (String dquote "")
  else if Ascii.eqb c backslash then String backslash (String backslash "")
  else if Ascii.eqb c newline then String backslash "n"
  else if Ascii.eqb c "013" then String backslash "r"
  else if Ascii.eqb c "009" then String backslash "t"
  else if Ascii.eqb c "008" then String backslash "b"
  else if Ascii.eqb c "012" then String backslash "f"
  else if (32 <=? code c)%N && (code c <=? 126)%N then String c ""
  else String backslash
         (String "u" (String "0" (String "0"
           (String (hex_char (code c / 16))
             (String (hex_char (code c mod 16)) ""))))).

Fixpoint escape (s : string) : string :=
  match s with
  | EmptyString => ""
  | String c r => escape_char c ++ escape r
  end.

Definition dump_string (s : string) : string :=
  String dquote (escape s ++ String dquote "").

Fixpoint spaces (n : nat) : string :=
  match n with
  | O => ""
  | S n' => String " " (spaces n')
  end.

(** A line break and the indentation of nesting level [lvl]. *)
Definition newline_indent (lvl : nat) : string :=
  String newline (spaces (4 * lvl)).

(** The items of a non-empty array or object, separated by [sep] and
    followed by [close]. *)
Fixpoint dump_items (sep close : string) (items : list string) : string :=
  match items with
  | [] => close
  | [x] => x ++ close
  | x :: xs => x ++ sep ++ dump_items sep close xs
  end.

Definition dump_array (lvl : nat) (items : list string) : string :=
  match items with
  | [] => "[]"
  | _ => String "[" (newline_indent (S lvl) ++
           dump_items (String "," (newline_indent (S lvl)))
                      (newline_indent lvl ++ "]") items)
  end.

Definition dump_member (member : string * string) : string :=
  dump_string member.1 ++ ": " ++ member.2.

Definition dump_object (lvl : nat) (members : list (string * string)) : string :=
  match members with
  | [] => "{}"
  | _ => String "{" (newline_indent (S lvl) ++
           dump_items (String "," (newline_indent (S lvl)))
                      (newline_indent lvl ++ "}")
                      (dump_member <$> members))
  end.

Fixpoint dump (lvl : nat) (v : json) {struct v} : string :=
  match v with
  | JNull => "null"
  | JBool true => "true"
  | JBool false => "false"
  | JInt n => dump_int n
  | JStr s => dump_string s
  | JList l => dump_array lvl (map (dump (S lvl)) l)
  | JObj m => dump_object lvl (map_to_list (dump (S lvl) <$> m))
  end.

Definition dumps (v : json) : string := dump 0 v.

(** *** Parsing *)

Definition is_ws (c : ascii) : bool :=
  Ascii.eqb c " " || Ascii.eqb c "009" || Ascii.eqb c newline || Ascii.eqb c "013".

Definition is_digit (c : ascii) : bool :=
  (48 <=? code c)%N && (code c <=? 57)%N.

Fixpoint skip_ws (s : string) : string :=
  match s with
  | String c r => if is_ws c then skip_ws r else s
  | EmptyString => s
  end.

(** The value of a run of digits at the head of [s], after [acc]. *)
Fixpoint scan_digits (s : string) (acc : N) : N * string :=
  match s with
  | String c r =>
      if is_digit c then scan_digits r (acc * 10 + (code c - 48))%N
      else (acc, s)
  | EmptyString => (acc, s)
  end.

Definition starts_with (p : ascii → bool) (s : string) : bool :=
  match s with
  | String c _ => p c
  | EmptyString => false
  end.

Definition is_float_mark (c : ascii) : bool :=
  Ascii.eqb c "." || Ascii.eqb c "e" || Ascii.eqb c "E".

(** The digits of an integer literal: [0], or a run of digits that does
    not start with [0]; [neg] tells whether a minus sign came before. *)
Definition parse_digits (neg : bool) (s : string) : option (json * string) :=
  match s with
  | String c r =>
      if negb (is_digit c) then None
      else if Ascii.eqb c "0" && starts_with is_digit r then None
      else
        let '(n, rest) := scan_digits s 0 in
        if starts_with is_float_mark rest then None
        else Some (JInt (if neg then - Z.of_N n else Z.of_N n), rest)
  | EmptyString => None
  end.

(** An integer literal: an optional minus sign and digits. *)
Definition parse_int (s : string) : option (json * string) :=
  match s with
  | String c r =>
      if Ascii.eqb c "-" then parse_digits true r else parse_digits false s
  | EmptyString => None
  end.

Definition hex_value (c : ascii) : option N :=
  let n := code c in
  if (48 <=? n)%N && (n <=? 57)%N then Some (n - 48)%N
  else if (97 <=? n)%N && (n <=? 102)%N then Some (n - 87)%N
  else if (65 <=? n)%N && (n <=? 70)%N then Some (n - 55)%N
  else None.

Definition unescape (c : ascii) : option ascii :=
  if Ascii.eqb c dquote then Some dquote
  else if Ascii.eqb c backslash then Some backslash
  else if Ascii.eqb c "/" then Some "/"%char
  else if Ascii.eqb c "n" then Some newline
  else if Ascii.eqb c "r" then Some "013"%char
  else if Ascii.eqb c "t" then Some "009"%char
  else if Ascii.eqb c "b" then Some "008"%char
  else if Ascii.eqb c "f" then Some "012"%char
  else None.

(** The four hex digits of a [\u] escape; a code point above 255 is not a
    character of the model. *)
Definition unescape_u (h1 h2 h3 h4 : ascii) : option ascii :=
  match hex_value h1, hex_value h2, hex_value h3, hex_value h4 with
  | Some a, Some b, Some c, Some d =>
      if (a =? 0)%N && (b =? 0)%N then Some (ascii_of_N (c * 16 + d)) else None
  | _, _, _, _ => None
  end.

(** A string literal after its opening quote: the string and the text
    after the closing quote.  A raw control character is an error. *)
Fixpoint scan_string (s : string) : option (string * string) :=
  match s with
  | EmptyString => None
  | String c r =>
      if Ascii.eqb c dquote then Some ("", r)
      else if Ascii.eqb c backslash then
        match r with
        | EmptyString => None
        | String e r' =>
            if Ascii.eqb e "u" then
              match r' with
              | String h1 (String h2 (String h3 (String h4 r''))) =>
                  match unescape_u h1 h2 h3 h4, scan_string r'' with
                  | Some c', Some (str, rest) => Some (String c' str, rest)
                  | _, _ => None
                  end
              | _ => None
              end
            else
              match unescape e, scan_string r' with
              | Some c', Some (str, rest) => Some (String c' str, rest)
              | _, _ => None
              end
        end
      else if (code c <? 32)%N then None
      else
        match scan_string r with
        | Some (str, rest) => Some (String c str, rest)
        | None => None
        end
  end.

(** [word w s] is the text after [w] when [s] starts with [w]. *)
Fixpoint word (w s : string) : option string :=
  match w, s with
  | EmptyString, _ => Some s
  | String a w', String b s' => if Ascii.eqb a b then word w' s' else None
  | String _ _, EmptyString => None
  end.

(** One value at the head of [s] (no leading white space), the elements
    of an array after its first bracket, the members of an object after
    its first brace. *)
Fixpoint parse_value (fuel : nat) (s : string) : option (json * string) :=
  match fuel with
  | O => None
  | S fuel' =>
      match s with
      | EmptyString => None
      | String c r =>
          if Ascii.eqb c dquote then
            match scan_string r with
            | Some (str, rest) => Some (JStr str, rest)
            | None => None
            end
          else if Ascii.eqb c "{" then
            match skip_ws r with
            | EmptyString => None
            | String c' r' =>
                if Ascii.eqb c' "}" then Some (JObj ∅, r')
                else parse_members fuel' (skip_ws r) ∅
            end
          else if Ascii.eqb c "[" then
            match skip_ws r with
            | EmptyString => None
            | String c' r' =>
                if Ascii.eqb c' "]" then Some (JList [], r')
                else parse_elements fuel' (skip_ws r) []
            end
          else if Ascii.eqb c "n" then
            match word "ull" r with Some rest => Some (JNull, rest) | None => None end
          else if Ascii.eqb c "t" then
            match word "rue" r with Some rest => Some (JBool true, rest) | None => None end
          else if Ascii.eqb c "f" then
            match word "alse" r with Some rest => Some (JBool false, rest) | None => None end
          else parse_int s
      end
  end
with parse_elements (fuel : nat) (s : string) (acc : list json)
    : option (json * string) :=
  match fuel with
  | O => None
  | S fuel' =>
      match parse_value fuel' s with
      | None => None
      | Some (v, r) =>
          match skip_ws r with
          | EmptyString => None
          | String c r' =>
              if Ascii.eqb c "]" then Some (JList (rev (v :: acc)), r')
              else if Ascii.eqb c "," then parse_elements fuel' (skip_ws r') (v :: acc)
              else None
          end
      end
  end
with parse_members (fuel : nat) (s : string) (acc : dict)
    : option (json * string) :=
  match fuel with
  | O => None
  | S fuel' =>
      match s with
      | EmptyString => None
      | String q r =>
          if negb (Ascii.eqb q dquote) then None
          else
            match scan_string r with
            | None => None
            | Some (key, r1) =>
                match skip_ws r1 with
                | EmptyString => None
                | String colon r2 =>
                    if negb (Ascii.eqb colon ":") then None
                    else
                      match parse_value fuel' (skip_ws r2) with
                      | None => None
                      | Some (v, r3) =>
                          match skip_ws r3 with
                          | EmptyString => None
                          | String c r4 =>
                              if Ascii.eqb c "}" then Some (JObj (<[key := v]> acc), r4)
                              else if Ascii.eqb c ","
                              then parse_members fuel' (skip_ws r4) (<[key := v]> acc)
                              else None
                          end
                      end
                end
            end
      end
  end.

(** [json.loads]: white space, one value, white space, end of text. *)
Definition loads (text : string) : option json :=
  match parse_value (S (String.length text)) (skip_ws text) with
  | Some (v, rest) =>
      match skip_ws rest with
      | EmptyString => Some v
      | String _ _ => None
      end
  | None => None
  end.

(** *** The documents [json.loads] accepts *)

(** A fraction after the digits of a number, when there is one: a point and
    at least one digit. *)
Definition skip_fraction (s : string) : string :=
  match s with
  | String c (String d r) =>
      if Ascii.eqb c "." && is_digit d then snd (scan_digits r 0) else s
  | _ => s
  end.

Definition skip_sign (s : string) : string :=
  match s with
  | String c r => if Ascii.eqb c "+" || Ascii.eqb c "-" then r else s
  | EmptyString => s
  end.

(** An exponent, when there is one: [e] or [E], an optional sign and at
    least one digit. *)
Definition skip_exponent (s : string) : string :=
  match s with
  | String c r =>
      if (Ascii.eqb c "e" || Ascii.eqb c "E")
         && starts_with is_digit (skip_sign r)
      then snd (scan_digits (skip_sign r) 0)
      else s
  | EmptyString => s
  end.

(** The text after a number literal, integer or float: an optional minus
    sign, [0] or digits that do not start with [0], an optional fraction,
    an optional exponent. *)
Definition skip_number (s : string) : option string :=
  let digits :=
    match s with
    | String c r => if Ascii.eqb c "-" then r else s
    | EmptyString => s
    end in
  match digits with
  | String c r =>
      if negb (is_digit c) then None
      else
        let rest := if Ascii.eqb c "0" then r else snd (scan_digits r 0) in
        Some (skip_exponent (skip_fraction rest))
  | EmptyString => None
  end.

(** The text after a string literal, from after its opening quote; a [\u]
    escape may name any code point. *)
Fixpoint skip_string (s : string) : option string :=
  match s with
  | EmptyString => None
  | String c r =>
      if Ascii.eqb c dquote then Some r
      else if Ascii.eqb c backslash then
        match r with
        | EmptyString => None
        | String e r' =>
            if Ascii.eqb e "u" then
              match r' with
              | String h1 (String h2 (String h3 (String h4 r''))) =>
                  match hex_value h1, hex_value h2, hex_value h3, hex_value h4 with
                  | Some _, Some _, Some _, Some _ => skip_string r''
                  | _, _, _, _ => None
                  end
              | _ => None
              end
            else
              match unescape e with
              | Some _ => skip_string r'
              | None => None
              end
        end
      else if (code c <? 32)%N then None
      else skip_string r
  end.

(** The text after one value at the head of [s], for every value
    [json.loads] accepts. *)
Fixpoint accept_value (fuel : nat) (s : string) : option string :=
  match fuel with
  | O => None
  | S fuel' =>
      match s with
      | EmptyString => None
      | String c r =>
          if Ascii.eqb c dquote then skip_string r
          else if Ascii.eqb c "{" then
            match skip_ws r with
            | EmptyString => None
            | String c' r' =>
                if Ascii.eqb c' "}" then Some r'
                else accept_members fuel' (skip_ws r)
            end
          else if Ascii.eqb c "[" then
            match skip_ws r with
            | EmptyString => None
            | String c' r' =>
                if Ascii.eqb c' "]" then Some r'
                else accept_elements fuel' (skip_ws r)
            end
          else if Ascii.eqb c "n" then word "ull" r
          else if Ascii.eqb c "t" then word "rue" r
          else if Ascii.eqb c "f" then word "alse" r
          else
            match skip_number s with
            | Some rest => Some rest
            | None =>
                if Ascii.eqb c "N" then word "aN" r
                else if Ascii.eqb c "I" then word "nfinity" r
                else if Ascii.eqb c "-" then word "Infinity" r
                else None
            end
      end
  end
with accept_elements (fuel : nat) (s : string) : option string :=
  match fuel with
  | O => None
  | S fuel' =>
      match accept_value fuel' s with
      | None => None
      | Some r =>
          match skip_ws r with
          | EmptyString => None
          | String c r' =>
              if Ascii.eqb c "]" then Some r'
              else if Ascii.eqb c "," then accept_elements fuel' (skip_ws r')
              else None
          end
      end
  end
with accept_members (fuel : nat) (s : string) : option string :=
  match fuel with
  | O => None
  | S fuel' =>
      match s with
      | EmptyString => None
      | String q r =>
          if negb (Ascii.eqb q dquote) then None
          else
            match skip_string r with
            | None => None
            | Some r1 =>
                match skip_ws r1 with
                | EmptyString => None
                | String colon r2 =>
                    if negb (Ascii.eqb colon ":") then None
                    else
                      match accept_value fuel' (skip_ws r2) with
                      | None => None
                      | Some r3 =>
                          match skip_ws r3 with
                          | EmptyString => None
                          | String c r4 =>
                              if Ascii.eqb c "}" then Some r4
                              else if Ascii.eqb c ","
                              then accept_members fuel' (skip_ws r4)
                              else None
                          end
                      end
                end
            end
      end
  end.

(** Whether [json.loads] accepts [text]: white space, one value, white
    space, end of text. *)
Definition accepts (text : string) : bool :=
  match accept_value (S (String.length text)) (skip_ws text) with
  | Some rest =>
      match skip_ws rest with
      | EmptyString => true
      | String _ _ => false
      end
  | None => false
  end.

(** [loads] answers on [text] as [json.loads] does: it gives a value, or
    [json.loads] rejects the text as well. *)
Definition faithful_on (text : string) : bool :=
  match loads text with
  | Some _ => true
  | None => negb (accepts text)
  end.

(** *** Notions for the round trip *)

(** A character that can start a value. *)
Definition value_start (c : ascii) : bool :=
  Ascii.eqb c dquote || Ascii.eqb c "{" || Ascii.eqb c "[" || Ascii.eqb c "n"
  || Ascii.eqb c "t" || Ascii.eqb c "f" || Ascii.eqb c "-" || is_digit c.

(** What follows a dumped value: the end of the text, a comma or a line
    break. *)
Definition at_delimiter (s : string) : bool :=
  match s with
  | EmptyString => true
  | String c _ => Ascii.eqb c "," || Ascii.eqb c newline
  end.

(** [roundtrips fuel]: with [fuel] at least the length of its text, a
    dumped value parses back, up to the text that follows it. *)
Definition roundtrips (fuel : nat) : Prop :=
  ∀ v lvl rest,
    (String.length (dump lvl v) ≤ fuel)%nat →
    at_delimiter rest = true →
    parse_value fuel (dump lvl v ++ rest) = Some (v, rest).

End PyJson.

(** ** Sample files

    The files the test suite writes to the path by hand. *)
Module Samples.
Import PyJson.

Definition quoted (s : string) : string :=
  String dquote (s ++ String dquote "").

(** The mapping of [test_load_config_reads_existing_file] ... *)
Definition custom_config : dict :=
  <["default_preview_length" := JInt 45]> (<["custom_setting" := JStr "test"]> ∅).

(** ... and the text [json.dump(custom_config, f)] writes for it. *)
Definition custom_config_text : string :=
  "{" ++ quoted "default_preview_length" ++ ": 45, "
      ++ quoted "custom_setting" ++ ": " ++ quoted "test" ++ "}".

(** The text of [test_corrupt_config_file]. *)
Definition corrupt_text : string := "{invalid json".

(** A valid JSON text whose root is an array, not a mapping. *)
Definition array_text : string := "[1, 2]".

(** A document outside the model: valid JSON that holds a float. *)
Definition float_text : string :=
  "{" ++ quoted "default_preview_length" ++ ": 7.5}".

(** Two bytes that are not text in UTF-8 (nor in ASCII): no UTF-8 sequence
    starts with [ff]. *)
Definition undecodable_bytes : list Byte.byte := [Byte.xff; Byte.xfe].

End Samples.

(** ** The file system

    What the one-path model leaves out of the disk: the other files and
    directories.  Opening a file can fail here in the ways the module does
    not handle (a directory at the path, a regular file among its parents).
    Permissions, links and relative paths are not modelled. *)
Module Fs.

(** A path is the list of its components, from the root. *)
Abbreviation path := (list string).

(** [Path.parent]. *)
Definition parent (p : path) : path := removelast p.

(** A file system entry: a regular file with what it holds, or a directory
    with its entries. *)
Inductive tree : Type :=
  | Reg (c : content)
  | Dir (entries : gmap string tree).

Abbreviation directory := (gmap string tree).

(** What Python raises here: the exceptions of the one-path model, and the
    operating-system errors the module has no handler for. *)
Inductive wexn : Type :=
  | Exn (e : exn)
  | IsADirectoryError
  | NotADirectoryError
  | FileExistsError.

Inductive outcome (A : Type) : Type :=
  | Returns (a : A)
  | Raises (e : wexn).
Arguments Returns {A} a.
Arguments Raises {A} e.

(** [open(p, 'r')], from the directory [entries]: the open file, as what
    it holds. *)
Fixpoint read (entries : directory) (p : path) : outcome content :=
  match p with
  | [] => Raises IsADirectoryError
  | name :: p' =>
      match entries !! name with
      | None => Raises (Exn FileNotFoundError)
      | Some (Reg c) =>
          match p' with
          | [] => Returns c
          | _ :: _ => Raises NotADirectoryError
          end
      | Some (Dir sub) => read sub p'
      end
  end.

(** A chain of new, empty directories. *)
Fixpoint new_dirs (p : path) : tree :=
  match p with
  | [] => Dir ∅
  | name :: p' => Dir {[name := new_dirs p']}
  end.

(** [os.makedirs(p, exist_ok=True)]: the missing directories of [p] are
    created; a regular file in the way is an error. *)
Fixpoint mkdirs (entries : directory) (p : path) : outcome directory :=
  match p with
  | [] => Returns entries
  | name :: p' =>
      match entries !! name with
      | None => Returns (<[name := new_dirs p']> entries)
      | Some (Reg _) =>
          match p' with
          | [] => Raises FileExistsError
          | _ :: _ => Raises NotADirectoryError
          end
      | Some (Dir sub) =>
          match mkdirs sub p' with
          | Returns sub' => Returns (<[name := Dir sub']> entries)
          | Raises e => Raises e
          end
      end
  end.

(** [open(p, 'w')] and writing [text]: the file is created or replaced; its
    directory must exist. *)
Fixpoint write (entries : directory) (p : path) (text : string)
    : outcome directory :=
  match p with
  | [] => Raises IsADirectoryError
  | name :: p' =>
      match entries !! name, p' with
      | None, [] => Returns (<[name := Reg text]> entries)
      | None, _ :: _ => Raises (Exn FileNotFoundError)
      | Some (Reg _), [] => Returns (<[name := Reg text]> entries)
      | Some (Reg _), _ :: _ => Raises NotADirectoryError
      | Some (Dir sub), _ =>
          match write sub p' text with
          | Returns sub' => Returns (<[name := Dir sub']> entries)
          | Raises e => Raises e
          end
      end
  end.

(** What the regular file at [p] holds, if there is one. *)
Definition data_at (entries : directory) (p : path) : option content :=
  match read entries p with
  | Returns c => Some c
  | Raises _ => None
  end.

(** The text of the regular file at [p], if there is one and it holds
    text. *)
Definition file_at (entries : directory) (p : path) : option string :=
  match data_at entries p with
  | Some (Text text) => Some text
  | _ => None
  end.

(** Whether [p] is a directory. *)
Fixpoint is_dir (entries : directory) (p : path) : bool :=
  match p with
  | [] => true
  | name :: p' =>
      match entries !! name with
      | Some (Dir sub) => is_dir sub p'
      | _ => false
      end
  end.

(** How the one-path model sees [p]: its [disk] state, or [None] when a
    directory is at [p] or a regular file is among its parents. *)
Fixpoint status (entries : directory) (p : path) : option disk :=
  match p with
  | [] => None
  | name :: p' =>
      match entries !! name, p' with
      | None, [] => Some NoFile
      | None, _ :: _ => Some NoDir
      | Some (Reg c), [] => Some (File c)
      | Some (Reg _), _ :: _ => None
      | Some (Dir sub), _ => status sub p'
      end
  end.

(** The errors the module does not handle. *)
Definition os_error (err : wexn) : bool :=
  match err with
  | Exn _ => false
  | _ => true
  end.

End Fs.

(** ** The module in its world

    The module again, with what the one-path model leaves fixed: the global
    [CONFIG_PATH] that [set_config_path] rebinds, the file system around
    the configuration file, and the [DEFAULT_CONFIG] object, which Python
    code can alias and mutate. *)
Module World.
Import Fs.

Record world : Type := {
  CONFIG_PATH : path;
  root : directory;
  DEFAULT_CONFIG : dict
}.

Definition with_path (p : path) (w : world) : world :=
  {| CONFIG_PATH := p; root := root w; DEFAULT_CONFIG := DEFAULT_CONFIG w |}.

Definition with_root (r : directory) (w : world) : world :=
  {| CONFIG_PATH := CONFIG_PATH w; root := r;
     DEFAULT_CONFIG := DEFAULT_CONFIG w |}.

Definition with_defaults (d : dict) (w : world) : world :=
  {| CONFIG_PATH := CONFIG_PATH w; root := root w; DEFAULT_CONFIG := d |}.

(** A reference to a dictionary: the [DEFAULT_CONFIG] object itself, or a
    dictionary of its own, which only its holder can change. *)
Inductive pydict : Type :=
  | TheDefaults
  | Fresh (d : dict).

Definition W (A : Type) : Type := world → outcome A * world.

Definition ret {A} (a : A) : W A := λ w, (Returns a, w).

Definition raise {A} (e : wexn) : W A := λ w, (Raises e, w).

Definition bind {A B} (m : W A) (k : A → W B) : W B :=
  λ w, match m w with
       | (Returns a, w') => k a w'
       | (Raises e, w') => (Raises e, w')
       end.

Definition try_except {A} (body : W A) (handler : wexn → W A) : W A :=
  λ w, match body w with
       | (Returns a, w') => (Returns a, w')
       | (Raises e, w') => handler e w'
       end.

Declare Scope world_scope.
Delimit Scope world_scope with world.
Notation "x <- m ;; k" := (bind m (λ x, k))
  (at level 100, m at next level, right associativity) : world_scope.
Notation "m ;; k" := (bind m (λ _, k))
  (at level 100, right associativity) : world_scope.
Local Open Scope world_scope.

(** [open(CONFIG_PATH, 'r')]. *)
Definition open_read : W content :=
  λ w, (read (root w) (CONFIG_PATH w), w).

(** [os.makedirs(CONFIG_PATH.parent, exist_ok=True)]. *)
Definition makedirs : W unit :=
  λ w, match mkdirs (root w) (parent (CONFIG_PATH w)) with
       | Returns r => (Returns tt, with_root r w)
       | Raises e => (Raises e, w)
       end.

(** [open(CONFIG_PATH, 'w')] and writing [text]. *)
Definition open_write (text : string) : W unit :=
  λ w, match write (root w) (CONFIG_PATH w) text with
       | Returns r => (Returns tt, with_root r w)
       | Raises e => (Raises e, w)
       end.

(** The entries of a dictionary, now. *)
Definition contents (x : pydict) : W dict :=
  λ w, (Returns (match x with
                 | TheDefaults => DEFAULT_CONFIG w
                 | Fresh d => d
                 end), w).

(** [x.copy()]. *)
Definition copy (x : pydict) : W pydict :=
  d <- contents x ;; ret (Fresh d).

(** [x[key] = value]. *)
Definition setitem (x : pydict) (key : string) (value : json) : W pydict :=
  λ w, match x with
       | TheDefaults =>
           (Returns TheDefaults,
            with_defaults (<[key := value]> (DEFAULT_CONFIG w)) w)
       | Fresh d => (Returns (Fresh (<[key := value]> d)), w)
       end.

(** [{**DEFAULT_CONFIG, **v}], a new dictionary. *)
Definition unpack_over_defaults (v : json) : W pydict :=
  match v with
  | JObj d2 => d1 <- contents TheDefaults ;; ret (Fresh (d2 ∪ d1))
  | _ => raise (Exn TypeError)
  end.

Section Config.
Context `{codec : JsonCodec}.

Definition json_load (f : content) : W json :=
  match f with
  | Bytes _ => raise (Exn UnicodeDecodeError)
  | Text text =>
      match json_loads text with
      | Some v => ret v
      | None => raise (Exn JSONDecodeError)
      end
  end.

Definition set_config_path (path : path) : W unit :=
  λ w, (Returns tt, with_path path w).

Definition save_config (config_dict : pydict) : W unit :=
  makedirs ;;
  d <- contents config_dict ;;
  open_write (json_dumps (JObj d)).

Definition load_config : W pydict :=
  try_except
    (f <- open_read ;;
     loaded_config <- json_load f ;;
     unpack_over_defaults loaded_config)
    (λ e, match e with
          | Exn FileNotFoundError =>
              makedirs ;;
              save_config TheDefaults ;;
              copy TheDefaults
          | Exn JSONDecodeError =>
              save_config TheDefaults ;;
              copy TheDefaults
          | _ => raise e
          end).

Definition get_config_value (key : string) (default : option json) : W json :=
  config <- load_config ;;
  d <- contents config ;;
  ret (match d !! key with
       | Some v => v
       | None => match default with Some d' => d' | None => JNull end
       end).

Definition set_config_value (key : string) (value : json) : W unit :=
  config <- load_config ;;
  config' <- setitem config key value ;;
  save_config config'.

Definition reset_to_defaults : W pydict :=
  save_config TheDefaults ;;
  copy TheDefaults.

End Config.

End World.

(** ** Callers, and the two models side by side *)
Module Client.
Import Fs.

(** The module as imported: [CONFIG_PATH] is
    [Path.home() / ".config" / "spotisonic" / "config.json"] and
    [DEFAULT_CONFIG] holds its six entries. *)
Definition imported (home : path) (r : directory) : World.world :=
  {| World.CONFIG_PATH := home ++ [".config"; "spotisonic"; "config.json"];
     World.root := r;
     World.DEFAULT_CONFIG := DEFAULT_CONFIG |}.

(** A call into the module. *)
Inductive call : Type :=
  | SetPath (p : path)
  | Load
  | Save (config_dict : World.pydict)
  | GetValue (key : string) (default : option json)
  | SetValue (key : string) (value : json)
  | Reset.

Section Run.
Context `{codec : JsonCodec}.

Definition run (c : call) : World.W unit :=
  match c with
  | SetPath p => World.set_config_path p
  | Load => World.bind World.load_config (λ _, World.ret tt)
  | Save config_dict => World.save_config config_dict
  | GetValue key default =>
      World.bind (World.get_config_value key default) (λ _, World.ret tt)
  | SetValue key value => World.set_config_value key value
  | Reset => World.bind World.reset_to_defaults (λ _, World.ret tt)
  end.

(** A client that makes the calls one after the other, and goes on after
    an exception. *)
Definition exec (calls : list call) (w : World.world) : World.world :=
  foldl (λ w c, snd (run c w)) w calls.

End Run.

(** The paths [CONFIG_PATH] takes during the calls. *)
Definition targets (w : World.world) (calls : list call) : list path :=
  World.CONFIG_PATH w
  :: omap (λ c, match c with SetPath p => Some p | _ => None end) calls.

(** What a call leaves alone: [CONFIG_PATH], the [DEFAULT_CONFIG] object and
    every file but the one at [CONFIG_PATH]. *)
Definition frame (w w' : World.world) : Prop :=
  World.CONFIG_PATH w' = World.CONFIG_PATH w
  ∧ World.DEFAULT_CONFIG w' = World.DEFAULT_CONFIG w
  ∧ ∀ q, q ≠ World.CONFIG_PATH w →
      data_at (World.root w') q = data_at (World.root w) q.

(** [keeps P m]: [m] leaves all that alone, and what it returns
    satisfies [P]. *)
Definition keeps {A} (P : A → Prop) (m : World.W A) : Prop :=
  ∀ w, frame w (snd (m w))
       ∧ ∀ a, fst (m w) = Returns a → P a.

(** A dictionary of its own, not the [DEFAULT_CONFIG] object. *)
Definition is_fresh (x : World.pydict) : Prop :=
  match x with
  | World.Fresh _ => True
  | World.TheDefaults => False
  end.

(** The world's outcome is the one-path model's. *)
Definition same {A B} (R : A → B → Prop)
    (r : result A) (o : outcome B) : Prop :=
  match r, o with
  | Ok a, Returns b => R a b
  | Raise e, Raises e' => e' = Exn e
  | _, _ => False
  end.

(** [simulates R m mw]: where the one-path model sees [CONFIG_PATH] as the
    disk [d] and nobody has changed the defaults, [mw] does what [m] does
    on [d]. *)
Definition simulates {A B} (R : A → B → Prop)
    (m : M A) (mw : World.W B) : Prop :=
  ∀ w d,
    status (World.root w) (World.CONFIG_PATH w) = Some d →
    World.DEFAULT_CONFIG w = DEFAULT_CONFIG →
    same R (returned m d) (fst (mw w))
    ∧ status (World.root (snd (mw w))) (World.CONFIG_PATH w)
      = Some (disk_after m d)
    ∧ World.CONFIG_PATH (snd (mw w)) = World.CONFIG_PATH w
    ∧ World.DEFAULT_CONFIG (snd (mw w)) = DEFAULT_CONFIG.

(** The new dictionary that holds [m]. *)
Definition fresh_of (m : dict) (x : World.pydict) : Prop := x = World.Fresh m.

End Client.

(** ** Sample worlds *)
Module WorldSamples.
Import Fs.

Definition home : path := ["home"; "alice"].

Definition config_path : path :=
  ["home"; "alice"; ".config"; "spotisonic"; "config.json"].

(** The path of a test's temporary configuration file. *)
Definition temp_path : path := ["tmp"; "tmp_test"; "test_config.json"].

(** A home directory with nothing in it: the module has never run. *)
Definition new_root : directory :=
  {["home" := Dir {["alice" := Dir ∅]}]}.

Definition first_run : World.world := Client.imported home new_root.

(** A configuration file in place, and an empty temporary directory. *)
Definition used_root : directory :=
  <["tmp" := Dir {["tmp_test" := Dir ∅]}]>
  {["home" := Dir {["alice" := Dir {[".config" := Dir {["spotisonic" :=
      Dir {["config.json" := Reg Samples.custom_config_text]}]}]}]}]}.

Definition in_use : World.world := Client.imported home used_root.

(** [CONFIG_PATH] pointed at a directory. *)
Definition at_directory : World.world := World.with_path home first_run.

(** What a test does between [setUp] and [tearDown]. *)
Definition test_calls : list Client.call :=
  [Client.SetValue "setting_one" (JStr "value_one");
   Client.SetValue "min_liked_for_artist" (JInt 5);
   Client.Reset;
   Client.Load].

End WorldSamples.

(** * Properties of the module *)

Section ConfigProperties.
Context `{codec : JsonCodec}.

Implicit Types (st : disk) (X D : dict) (k : string) (v : json).

(** *** How each operation runs *)

Lemma save_config_run X st :
  save_config X st = (Ok tt, File (json_dumps (JObj X))).
Proof. by destruct st. Qed.

Lemma load_config_absent st :
  absent st →
  load_config st = (Ok DEFAULT_CONFIG, File (json_dumps (JObj DEFAULT_CONFIG))).
Proof. by destruct st. Qed.

Lemma load_config_malformed text :
  json_loads text = None →
  load_config (File text)
  = (Ok DEFAULT_CONFIG, File (json_dumps (JObj DEFAULT_CONFIG))).
Proof.
  intros Hbad. unfold load_config, try_except, bind, open_read, json_load.
  by rewrite Hbad.
Qed.

Lemma load_config_valid text D :
  json_loads text = Some (JObj D) →
  load_config (File text) = (Ok (D ∪ DEFAULT_CONFIG), File text).
Proof.
  intros Hok. unfold load_config, try_except, bind, open_read, json_load.
  by rewrite Hok.
Qed.

(** A file whose root is not a mapping makes [load_config] raise
    [TypeError]; nothing is written. *)
Lemma load_config_not_a_mapping text v :
  json_loads text = Some v →
  (∀ D, v ≠ JObj D) →
  load_config (File text) = (Raise TypeError, File text).
Proof.
  intros Hok Hv. unfold load_config, try_except, bind, open_read, json_load.
  rewrite Hok. destruct v; try done. by destruct (Hv m).
Qed.

(** A file whose bytes are not text makes [load_config] raise
    [UnicodeDecodeError]: no handler names it, and nothing is written. *)
Lemma load_config_not_text bytes :
  load_config (File (Bytes bytes))
  = (Raise UnicodeDecodeError, File (Bytes bytes)).
Proof. done. Qed.

(** What [load_config] returns, by file state. *)
Lemma load_config_run st :
  load_config st
  = (match classify st with
     | Absent | Malformed => Ok DEFAULT_CONFIG
     | Valid D => Ok (D ∪ DEFAULT_CONFIG)
     | NotAMapping _ => Raise TypeError
     | NotText => Raise UnicodeDecodeError
     end, healed st).
Proof.
  unfold healed, classify. destruct st as [| |[text|bytes]]; [done..| |done].
  destruct (json_loads text) as [v|] eqn:Hv.
  - destruct v; first [by apply load_config_valid
                      |by eapply load_config_not_a_mapping].
  - by apply load_config_malformed.
Qed.

Lemma load_config_config_state st :
  config_state st = true →
  load_config st = (Ok (persisted st ∪ DEFAULT_CONFIG), healed st).
Proof.
  rewrite load_config_run. unfold config_state, persisted.
  destruct (classify st); try done; by rewrite (left_id_L ∅ (∪)).
Qed.

Lemma classify_saved X :
  classify (File (json_dumps (JObj X))) = Valid X.
Proof. unfold classify. by rewrite json_loads_dumps. Qed.

Lemma load_config_saved X :
  load_config (File (json_dumps (JObj X)))
  = (Ok (X ∪ DEFAULT_CONFIG), File (json_dumps (JObj X))).
Proof. apply load_config_valid, json_loads_dumps. Qed.

Lemma classify_healed st :
  classify (healed st)
  = match classify st with
    | Absent | Malformed => Valid DEFAULT_CONFIG
    | c => c
    end.
Proof.
  unfold healed. destruct (classify st) eqn:Hc; by rewrite ?classify_saved.
Qed.

Lemma healed_healed st : healed (healed st) = healed st.
Proof.
  unfold healed at 1. rewrite classify_healed. unfold healed.
  by destruct (classify st).
Qed.

Lemma union_defaults_lookup D k :
  (D ∪ DEFAULT_CONFIG) !! k
  = match D !! k with Some v => Some v | None => DEFAULT_CONFIG !! k end.
Proof. rewrite lookup_union. by destruct (D !! k), (DEFAULT_CONFIG !! k). Qed.

Lemma union_defaults_id X :
  X ∪ DEFAULT_CONFIG = X ↔ dom DEFAULT_CONFIG ⊆ dom X.
Proof.
  split.
  - intros Heq k [d Hd]%elem_of_dom. apply elem_of_dom.
    rewrite <-Heq, union_defaults_lookup. destruct (X !! k); eauto.
  - intros Hsub. apply map_eq; intros k. rewrite union_defaults_lookup.
    destruct (X !! k) eqn:HX; [done|].
    apply not_elem_of_dom. intros [x Hx]%Hsub%elem_of_dom. congruence.
Qed.

Lemma default_keys_union D : dom DEFAULT_CONFIG ⊆ dom (D ∪ DEFAULT_CONFIG).
Proof. rewrite dom_union_L. apply union_subseteq_r. Qed.

Lemma two_default_keys :
  is_Some (DEFAULT_CONFIG !! "default_shuffle")
  ∧ is_Some (DEFAULT_CONFIG !! "default_scrobble").
Proof. split; by eexists. Qed.

Lemma default_config_size : size DEFAULT_CONFIG = 6%nat.
Proof. unfold DEFAULT_CONFIG. by rewrite !map_size_insert_None. Qed.

(** *** Save and load *)

(** C1, as amended: [save_config X] followed by [load_config] returns [X]
    merged over the defaults.  Every entry of [X] comes back unchanged,
    every default key that [X] lacks is added with its default value, and
    the result is [X] itself exactly when [X] has every default key. *)
Theorem save_then_load X st :
  returned (save_config X ;; load_config) st = Ok (X ∪ DEFAULT_CONFIG)
  ∧ (∀ k v, X !! k = Some v → (X ∪ DEFAULT_CONFIG) !! k = Some v)
  ∧ (∀ k, X !! k = None → (X ∪ DEFAULT_CONFIG) !! k = DEFAULT_CONFIG !! k)
  ∧ (X ∪ DEFAULT_CONFIG = X ↔ dom DEFAULT_CONFIG ⊆ dom X).
Proof.
  split_and!.
  - unfold returned, bind. by rewrite save_config_run, load_config_saved.
  - intros k v Hk. by rewrite union_defaults_lookup, Hk.
  - intros k Hk. by rewrite union_defaults_lookup, Hk.
  - apply union_defaults_id.
Qed.

(** C2, as amended: on a file that holds text which does not parse,
    [load_config] returns the defaults and overwrites the file with the
    serialized defaults, a text that parses on the next read. *)
Theorem load_config_repairs_malformed text :
  json_loads text = None →
  returned load_config (File text) = Ok DEFAULT_CONFIG
  ∧ disk_after load_config (File text)
    = File (json_dumps (JObj DEFAULT_CONFIG))
  ∧ json_loads (json_dumps (JObj DEFAULT_CONFIG))
    = Some (JObj DEFAULT_CONFIG).
Proof.
  intros Hbad. unfold returned, disk_after.
  rewrite (load_config_malformed _ Hbad). split_and!; [done..|].
  apply json_loads_dumps.
Qed.

(** C3: when no file exists, [load_config] makes sure the parent directory
    exists (whether or not it did before), returns the defaults, and
    leaves a file that holds the serialized defaults. *)
Theorem load_config_creates_file st :
  absent st →
  returned makedirs st = Ok tt
  ∧ parent_exists (disk_after makedirs st) = true
  ∧ returned load_config st = Ok DEFAULT_CONFIG
  ∧ disk_after load_config st = File (json_dumps (JObj DEFAULT_CONFIG))
  ∧ parent_exists (disk_after load_config st) = true.
Proof.
  intros Hst. unfold returned, disk_after.
  rewrite (load_config_absent _ Hst). by destruct st.
Qed.

(** C4: on a file that holds a mapping [D], [load_config] returns the
    union of [D] and the defaults: the value of [D] at every key of [D],
    the default value at every other key. *)
Theorem load_config_merges text D :
  json_loads text = Some (JObj D) →
  ∃ m, returned load_config (File text) = Ok m
    ∧ m = D ∪ DEFAULT_CONFIG
    ∧ (∀ k v, D !! k = Some v → m !! k = Some v)
    ∧ (∀ k, D !! k = None → m !! k = DEFAULT_CONFIG !! k).
Proof.
  intros HD. exists (D ∪ DEFAULT_CONFIG). unfold returned.
  rewrite (load_config_valid _ _ HD). split_and!; [done..| |].
  - intros k v Hk. by rewrite union_defaults_lookup, Hk.
  - intros k Hk. by rewrite union_defaults_lookup, Hk.
Qed.

(** C5: every mapping [load_config] returns has every default key, and it
    does return a mapping whether the file is absent, malformed or holds a
    mapping. *)
Theorem load_config_default_keys st :
  (∀ m, returned load_config st = Ok m → dom DEFAULT_CONFIG ⊆ dom m)
  ∧ (config_state st = true → ∃ m, returned load_config st = Ok m).
Proof.
  unfold returned, config_state. rewrite load_config_run. simpl. split.
  - intros m Hm. destruct (classify st); simplify_eq;
      [done..|apply default_keys_union].
  - destruct (classify st); by eauto.
Qed.

(** C6, as amended: on a file that is absent, holds text which does not
    parse, or holds a mapping, [set_config_value k v] followed by
    [load_config] returns a mapping with [v] at [k]; at every other key it
    agrees with what [load_config] returned before the call. *)
Theorem set_then_load k v st :
  config_state st = true →
  ∃ before after,
    returned load_config st = Ok before
    ∧ returned (set_config_value k v ;; load_config) st = Ok after
    ∧ after !! k = Some v
    ∧ (∀ k', k' ≠ k → after !! k' = before !! k').
Proof.
  intros Hst. exists (persisted st ∪ DEFAULT_CONFIG).
  exists (<[k := v]> (persisted st ∪ DEFAULT_CONFIG) ∪ DEFAULT_CONFIG).
  unfold returned, set_config_value, bind.
  rewrite (load_config_config_state _ Hst). cbv beta iota.
  rewrite save_config_run, load_config_saved.
  split_and!; [done..| |].
  - by rewrite union_defaults_lookup, lookup_insert_eq.
  - intros k' Hk'. rewrite union_defaults_lookup, lookup_insert_ne by done.
    rewrite union_defaults_lookup.
    by destruct (persisted st !! k'), (DEFAULT_CONFIG !! k').
Qed.

(** C7: [reset_to_defaults] writes the serialized defaults over whatever
    the disk held and returns the defaults; a [load_config] after it
    returns the defaults, in which no key outside the defaults occurs. *)
Theorem reset_then_load st :
  returned reset_to_defaults st = Ok DEFAULT_CONFIG
  ∧ disk_after reset_to_defaults st
    = File (json_dumps (JObj DEFAULT_CONFIG))
  ∧ ∃ m, returned (reset_to_defaults ;; load_config) st = Ok m
      ∧ m = DEFAULT_CONFIG
      ∧ (∀ k, k ∉ dom DEFAULT_CONFIG → m !! k = None).
Proof.
  unfold returned, disk_after, reset_to_defaults, bind, ret.
  rewrite save_config_run. cbv beta iota. split_and!; [done..|].
  exists DEFAULT_CONFIG. rewrite load_config_saved, (idemp_L (∪)).
  split_and!; [done..|]. intros k. apply not_elem_of_dom.
Qed.

(** C8: [get_config_value k d] returns the value at [k] of the mapping
    [load_config] returns when [k] is one of its keys, and the fallback
    otherwise; an omitted fallback is [None].  That mapping is the union of
    the persisted document and the defaults. *)
Theorem get_config_value_spec k d st :
  (∀ U, returned load_config st = Ok U →
     (∀ v, U !! k = Some v →
        returned (get_config_value k (Some d)) st = Ok v
        ∧ returned (get_config_value k None) st = Ok v)
     ∧ (U !! k = None →
        returned (get_config_value k (Some d)) st = Ok d
        ∧ returned (get_config_value k None) st = Ok JNull))
  ∧ (config_state st = true →
     returned load_config st = Ok (persisted st ∪ DEFAULT_CONFIG)).
Proof.
  split.
  - unfold returned, get_config_value, bind, ret.
    destruct (load_config st) as [[U'|e] st']; simpl; [|done].
    intros U [= ->]. split; [intros v Hk|intros Hk]; by rewrite Hk.
  - intros Hst. unfold returned. by rewrite load_config_config_state.
Qed.

(** C9: a second [load_config] returns what the first returned and leaves
    the disk as the first left it; on a file that is absent, malformed or
    holds a mapping, what is returned is a mapping. *)
Theorem load_config_idempotent st :
  returned load_config (disk_after load_config st) = returned load_config st
  ∧ disk_after load_config (disk_after load_config st)
    = disk_after load_config st
  ∧ (config_state st = true → ∃ m, returned load_config st = Ok m).
Proof.
  unfold returned, disk_after. rewrite !load_config_run. simpl.
  rewrite healed_healed, classify_healed. split_and!; [|done|].
  - destruct (classify st); by rewrite ?(idemp_L (∪)).
  - unfold config_state. destruct (classify st); by eauto.
Qed.

(** C10: when no file exists, [set_config_value k v] leaves a file that
    holds a mapping with all six default keys and with [v] at [k]; that
    mapping is not the singleton of [k] and [v]. *)
Theorem set_config_value_on_absent k v st :
  absent st →
  ∃ text m,
    returned (set_config_value k v) st = Ok tt
    ∧ disk_after (set_config_value k v) st = File text
    ∧ json_loads text = Some (JObj m)
    ∧ m = <[k := v]> DEFAULT_CONFIG
    ∧ size DEFAULT_CONFIG = 6%nat
    ∧ dom DEFAULT_CONFIG ⊆ dom m
    ∧ m !! k = Some v
    ∧ m ≠ {[k := v]}.
Proof.
  intros Hst.
  exists (json_dumps (JObj (<[k := v]> DEFAULT_CONFIG))), (<[k := v]> DEFAULT_CONFIG).
  unfold returned, disk_after, set_config_value, bind.
  rewrite (load_config_absent _ Hst). cbv beta iota. rewrite save_config_run.
  split_and!; [done..| |done| | | |].
  - apply json_loads_dumps.
  - apply default_config_size.
  - rewrite dom_insert_L. apply union_subseteq_r.
  - apply lookup_insert_eq.
  - intros Heq. destruct two_default_keys as [[a Ha] [b Hb]].
    assert (Hin : ∀ k' x, DEFAULT_CONFIG !! k' = Some x → k' = k).
    { intros k' x Hk'. destruct (decide (k' = k)) as [|Hne]; [done|].
      assert (Hl : <[k := v]> DEFAULT_CONFIG !! k' = Some x)
        by by rewrite lookup_insert_ne.
      rewrite Heq, lookup_singleton_ne in Hl by done. done. }
    pose proof (Hin _ _ Ha). pose proof (Hin _ _ Hb). congruence.
Qed.

End ConfigProperties.

(** * The JSON codec loads what it dumps *)

Module PyJsonFacts.
Import PyJson.

Local Arguments String.append : simpl nomatch.

(** *** Text *)

Lemma append_assoc (s t u : string) : (s ++ t) ++ u = s ++ (t ++ u).
Proof. induction s as [|c s IH]; simpl; [done|by rewrite IH]. Qed.

Lemma append_cons c s t : String c s ++ t = String c (s ++ t).
Proof. done. Qed.

Lemma append_nil_r (s : string) : s ++ "" = s.
Proof. induction s as [|c s IH]; simpl; [done|by rewrite IH]. Qed.

Lemma length_append (s t : string) :
  String.length (s ++ t) = (String.length s + String.length t)%nat.
Proof. induction s as [|c s IH]; simpl; [done|by rewrite IH]. Qed.

Ltac each_char c := destruct c as [[] [] [] [] [] [] [] []].

Lemma value_start_not_ws c : value_start c = true → is_ws c = false.
Proof. each_char c; by vm_compute. Qed.

Lemma value_start_not_close c :
  value_start c = true → Ascii.eqb c "]" = false ∧ Ascii.eqb c "}" = false.
Proof. each_char c; by vm_compute. Qed.

Lemma is_digit_not_minus c : is_digit c = true → Ascii.eqb c "-" = false.
Proof. each_char c; by vm_compute. Qed.

Lemma at_delimiter_not_digit s :
  at_delimiter s = true →
  starts_with is_digit s = false ∧ starts_with is_float_mark s = false.
Proof. destruct s as [|c s]; [done|]. simpl. each_char c; by vm_compute. Qed.

Lemma skip_ws_spaces n s : skip_ws (spaces n ++ s) = skip_ws s.
Proof. induction n as [|n IH]; [done|]. simpl. apply IH. Qed.

Lemma skip_ws_newline_indent lvl s :
  skip_ws (newline_indent lvl ++ s) = skip_ws s.
Proof. unfold newline_indent. simpl. apply skip_ws_spaces. Qed.

Lemma skip_ws_value_start c s :
  value_start c = true → skip_ws (String c s) = String c s.
Proof. intros Hc. simpl. by rewrite (value_start_not_ws _ Hc). Qed.

(** *** Integers *)

Lemma digit_char_spec d :
  (d < 10)%N →
  is_digit (digit_char d) = true ∧ (code (digit_char d) - 48)%N = d.
Proof.
  intros Hd.
  assert (d = 0 ∨ d = 1 ∨ d = 2 ∨ d = 3 ∨ d = 4 ∨ d = 5 ∨ d = 6 ∨ d = 7
          ∨ d = 8 ∨ d = 9)%N as Hcases by lia.
  repeat destruct Hcases as [->|Hcases]; subst; by vm_compute.
Qed.

Lemma digit_char_zero d :
  (d < 10)%N → digit_char d = "0"%char → d = 0%N.
Proof.
  intros Hd Heq. apply digit_char_spec in Hd as [_ <-]. by rewrite Heq.
Qed.

Lemma digits_fuel_append fuel n tail rest :
  digits_fuel fuel n tail ++ rest = digits_fuel fuel n (tail ++ rest).
Proof.
  revert n tail. induction fuel as [|fuel IH]; intros n tail; simpl; [done|].
  destruct (n <? 10)%N; [done|]. by rewrite IH.
Qed.

Lemma div10_lt_pow2 fuel n :
  (n < 2 ^ N.of_nat (S fuel))%N → (n / 10 < 2 ^ N.of_nat fuel)%N.
Proof.
  rewrite Nat2N.inj_succ, N.pow_succ_r'. intros Hn.
  apply N.Div0.div_lt_upper_bound. lia.
Qed.

(** Scanning the digits of [n] yields [n]. *)
Lemma scan_digits_digits_fuel fuel n tail :
  (n < 2 ^ N.of_nat fuel)%N →
  scan_digits (digits_fuel fuel n tail) 0 = scan_digits tail n.
Proof.
  revert n tail. induction fuel as [|fuel IH]; intros n tail Hn.
  { simpl in *. by replace n with 0%N by lia. }
  cbn [digits_fuel]. pose proof (N.mod_lt n 10 ltac:(done)) as Hmod.
  destruct (digit_char_spec _ Hmod) as [Hdig Hcode].
  destruct (N.ltb_spec n 10) as [Hlt|Hge].
  - cbn [scan_digits]. rewrite Hdig, Hcode. f_equal.
    rewrite N.mod_small by done. lia.
  - rewrite IH by by apply div10_lt_pow2.
    cbn [scan_digits]. rewrite Hdig, Hcode. f_equal.
    pose proof (N.Div0.div_mod n 10). lia.
Qed.

(** The digits of [n] start with a digit, which is [0] only for [n = 0]. *)
Lemma digits_fuel_head fuel n tail :
  (n < 2 ^ N.of_nat fuel)%N → fuel ≠ O →
  ∃ c r, digits_fuel fuel n tail = String c r
    ∧ is_digit c = true
    ∧ (c = "0"%char → n = 0%N ∧ r = tail).
Proof.
  revert n tail. induction fuel as [|fuel IH]; intros n tail Hn Hfuel; [done|].
  cbn [digits_fuel]. pose proof (N.mod_lt n 10 ltac:(done)) as Hmod.
  destruct (N.ltb_spec n 10) as [Hlt|Hge].
  - eexists _, _. split_and!; [done|by apply digit_char_spec|].
    intros Hz%digit_char_zero; [|done]. by rewrite N.mod_small in Hz.
  - assert (1 ≤ n / 10)%N as Hq.
    { apply N.div_le_lower_bound; lia. }
    pose proof (div10_lt_pow2 _ _ Hn) as Hn'.
    destruct (IH (n / 10)%N (String (digit_char (n mod 10)) tail) Hn')
      as (c & r & -> & Hc & Hzero).
    { intros ->. simpl in Hn'. lia. }
    eexists _, _. split_and!; [done..|]. intros [? _]%Hzero. lia.
Qed.

Lemma lt_pow2_log2 n : (n < 2 ^ N.of_nat (S (N.to_nat (N.log2 n))))%N.
Proof.
  rewrite Nat2N.inj_succ, N2Nat.id. destruct n as [|p]; [done|].
  apply N.log2_spec. lia.
Qed.

Lemma scan_digits_delimited s n :
  starts_with is_digit s = false → scan_digits s n = (n, s).
Proof. destruct s as [|c s]; simpl; [done|]. by intros ->. Qed.

Lemma parse_digits_digits neg n rest :
  at_delimiter rest = true →
  ∃ c r, digits n ++ rest = String c r
    ∧ is_digit c = true
    ∧ parse_digits neg (String c r)
      = Some (JInt (if neg then - Z.of_N n else Z.of_N n), rest).
Proof.
  intros [Hdig Hfloat]%at_delimiter_not_digit. unfold digits.
  rewrite digits_fuel_append. simpl (_ ++ _).
  destruct (digits_fuel_head _ n rest (lt_pow2_log2 n))
    as (c & r & Heq & Hc & Hzero); [done|].
  exists c, r. split_and!; [done..|].
  unfold parse_digits. rewrite <-Heq at 1.
  rewrite scan_digits_digits_fuel by apply lt_pow2_log2.
  rewrite scan_digits_delimited, Hfloat, Hc by done. simpl.
  destruct (Ascii.eqb_spec c "0") as [->|_]; [|done].
  destruct Hzero as [_ ->]; [done|]. by rewrite Hdig.
Qed.

Lemma parse_int_dump n rest :
  at_delimiter rest = true →
  parse_int (dump_int n ++ rest) = Some (JInt n, rest).
Proof.
  intros Hrest. unfold dump_int, parse_int.
  destruct (Z.ltb_spec n 0) as [Hneg|Hpos].
  - destruct (parse_digits_digits true (Z.to_N (- n)) rest Hrest)
      as (c & r & Heq & _ & Hparse).
    simpl. rewrite Heq, Hparse. by replace (- Z.of_N (Z.to_N (- n))) with n by lia.
  - destruct (parse_digits_digits false (Z.to_N n) rest Hrest)
      as (c & r & Heq & Hc & Hparse).
    rewrite Heq, (is_digit_not_minus _ Hc), Hparse. by rewrite Z2N.id.
Qed.

(** *** Strings *)

Lemma scan_string_escape s rest :
  scan_string (escape s ++ String dquote rest) = Some (s, rest).
Proof.
  induction s as [|c s IH]; [done|].
  cbn [escape]. rewrite append_assoc.
  each_char c; simpl; by rewrite IH.
Qed.

(** *** Values *)

Lemma dump_int_head n rest :
  ∃ c r, dump_int n ++ rest = String c r
    ∧ (is_digit c || Ascii.eqb c "-") = true.
Proof.
  unfold dump_int. destruct (n <? 0)%Z.
  - by eexists _, _.
  - unfold digits. rewrite digits_fuel_append.
    destruct (digits_fuel_head _ (Z.to_N n) ("" ++ rest) (lt_pow2_log2 _))
      as (c & r & -> & Hc & _); [done|]. exists c, r. by rewrite Hc.
Qed.

Lemma int_start_value_start c :
  (is_digit c || Ascii.eqb c "-") = true → value_start c = true.
Proof. each_char c; by vm_compute. Qed.

Lemma int_start_not_other c :
  (is_digit c || Ascii.eqb c "-") = true →
  Ascii.eqb c dquote = false ∧ Ascii.eqb c "{" = false
  ∧ Ascii.eqb c "[" = false ∧ Ascii.eqb c "n" = false
  ∧ Ascii.eqb c "t" = false ∧ Ascii.eqb c "f" = false.
Proof. each_char c; by vm_compute. Qed.

(** A dumped value starts with a character that starts a value. *)
Lemma dump_head lvl v rest :
  ∃ c r, dump lvl v ++ rest = String c r ∧ value_start c = true.
Proof.
  destruct v as [|[]|n|s|l|m]; simpl; try by eexists _, _.
  - destruct (dump_int_head n rest) as (c & r & -> & Hc).
    eauto using int_start_value_start.
  - destruct (map _ l); by eexists _, _.
  - destruct (map_to_list _); by eexists _, _.
Qed.

Lemma dump_length_pos lvl v : (0 < String.length (dump lvl v))%nat.
Proof.
  destruct (dump_head lvl v "") as (c & r & Heq & _).
  rewrite append_nil_r in Heq. rewrite Heq. simpl. lia.
Qed.

Lemma skip_ws_dump lvl v rest :
  skip_ws (dump lvl v ++ rest) = dump lvl v ++ rest.
Proof.
  destruct (dump_head lvl v rest) as (c & r & -> & Hc).
  by apply skip_ws_value_start.
Qed.

Lemma dump_items_cons sep close x xs rest :
  ∃ tail, dump_items sep close (x :: xs) ++ rest = x ++ tail.
Proof.
  destruct xs; simpl; rewrite append_assoc; eauto.
Qed.


Lemma dump_items_cons2 sep close x y ys :
  dump_items sep close (x :: y :: ys)
  = x ++ sep ++ dump_items sep close (y :: ys).
Proof. done. Qed.

Lemma skip_ws_dump_items sep close lvl v xs rest :
  skip_ws (dump_items sep close (dump lvl v :: xs) ++ rest)
  = dump_items sep close (dump lvl v :: xs) ++ rest.
Proof.
  destruct (dump_items_cons sep close (dump lvl v) xs rest) as [tail ->].
  apply skip_ws_dump.
Qed.

Lemma skip_ws_comma s : skip_ws (String "," s) = String "," s.
Proof. done. Qed.

Lemma parse_elements_dump fuel lvl (l : list json) acc rest :
  (∀ f, (f < fuel)%nat → roundtrips f) →
  l ≠ [] →
  (String.length (dump_items (String "," (newline_indent (S lvl)))
                             (newline_indent lvl ++ "]")
                             (map (dump (S lvl)) l)) ≤ fuel)%nat →
  parse_elements fuel
    (dump_items (String "," (newline_indent (S lvl)))
                (newline_indent lvl ++ "]")
                (map (dump (S lvl)) l) ++ rest) acc
  = Some (JList (rev acc ++ l), rest).
Proof.
  revert fuel acc. induction l as [|v l IH]; intros fuel acc Hrt Hne Hlen; [done|].
  cbn [map] in *. destruct fuel as [|f].
  { destruct (dump_items_cons (String "," (newline_indent (S lvl)))
                (newline_indent lvl ++ "]") (dump (S lvl) v)
                (map (dump (S lvl)) l) "") as [tail Htail].
    rewrite append_nil_r in Htail. rewrite Htail, length_append in Hlen.
    pose proof (dump_length_pos (S lvl) v). lia. }
  destruct l as [|v2 l].
  - clear IH. cbn [map dump_items] in *. rewrite length_append in Hlen.
    rewrite append_assoc. cbn [parse_elements].
    rewrite (Hrt f) by (simpl in *; first [lia|done]).
    rewrite append_assoc, skip_ws_newline_indent. by simpl.
  - cbn [map] in Hlen |- *. rewrite dump_items_cons2 in Hlen |- *.
    change (dump (S lvl) v2 :: map (dump (S lvl)) l)
      with (map (dump (S lvl)) (v2 :: l)) in Hlen |- *.
    set (tail := dump_items _ _ (map _ (v2 :: l))) in Hlen |- *.
    rewrite !length_append in Hlen. rewrite !append_assoc.
    cbn [parse_elements]. rewrite (Hrt f) by (simpl in *; first [lia|done]).
    rewrite append_cons, skip_ws_comma. simpl (Ascii.eqb _ _).
    cbv iota. rewrite skip_ws_newline_indent. subst tail.
    cbn [map]. rewrite skip_ws_dump_items.
    change (dump (S lvl) v2 :: map (dump (S lvl)) l)
      with (map (dump (S lvl)) (v2 :: l)) in Hlen |- *.
    rewrite (IH f (v :: acc)); [|by auto with lia|done|simpl in *; lia].
    simpl. by rewrite <-app_assoc.
Qed.


Lemma dump_member_append key text tail :
  dump_member (key, text) ++ tail
  = String dquote
      (escape key ++ String dquote (String ":" (String " " (text ++ tail)))).
Proof.
  unfold dump_member, dump_string. cbn [fst snd].
  simpl. by rewrite !append_assoc.
Qed.

Lemma dump_member_length key text :
  (String.length text < String.length (dump_member (key, text)))%nat.
Proof.
  unfold dump_member, dump_string. cbn [fst snd].
  rewrite !length_append. simpl. lia.
Qed.

Lemma skip_ws_dump_members sep close member xs rest :
  skip_ws (dump_items sep close (dump_member member :: xs) ++ rest)
  = dump_items sep close (dump_member member :: xs) ++ rest.
Proof.
  destruct (dump_items_cons sep close (dump_member member) xs rest)
    as [tail ->].
  destruct member as [key text]. by rewrite dump_member_append.
Qed.

Lemma parse_member fuel lvl key v tail acc :
  roundtrips fuel →
  (String.length (dump (S lvl) v) ≤ fuel)%nat →
  at_delimiter tail = true →
  parse_members (S fuel) (dump_member (key, dump (S lvl) v) ++ tail) acc
  = match skip_ws tail with
    | EmptyString => None
    | String c r4 =>
        if Ascii.eqb c "}" then Some (JObj (<[key := v]> acc), r4)
        else if Ascii.eqb c ","
        then parse_members fuel (skip_ws r4) (<[key := v]> acc)
        else None
    end.
Proof.
  intros Hrt Hlen Htail. rewrite dump_member_append. cbn [parse_members].
  simpl (negb _). cbv iota. rewrite scan_string_escape.
  change (skip_ws (String ":" ?s)) with (String ":" s).
  simpl (negb _). cbv iota.
  change (skip_ws (String " " ?s)) with (skip_ws s).
  by rewrite skip_ws_dump, Hrt.
Qed.

Lemma parse_members_dump fuel lvl (L : list (string * json)) acc rest :
  (∀ f, (f < fuel)%nat → roundtrips f) →
  L ≠ [] →
  (String.length
     (dump_items (String "," (newline_indent (S lvl)))
                 (newline_indent lvl ++ "}")
                 (dump_member <$> (prod_map id (dump (S lvl)) <$> L)))
   ≤ fuel)%nat →
  parse_members fuel
    (dump_items (String "," (newline_indent (S lvl)))
                (newline_indent lvl ++ "}")
                (dump_member <$> (prod_map id (dump (S lvl)) <$> L)) ++ rest)
    acc
  = Some (JObj (foldl (λ a kv, <[kv.1 := kv.2]> a) acc L), rest).
Proof.
  revert fuel acc.
  induction L as [|[key v] L IH]; intros fuel acc Hrt Hne Hlen; [done|].
  cbn [fmap list_fmap prod_map fst snd id] in Hlen |- *.
  destruct fuel as [|f].
  { destruct (dump_items_cons (String "," (newline_indent (S lvl)))
                (newline_indent lvl ++ "}")
                (dump_member (key, dump (S lvl) v))
                (dump_member <$> (prod_map id (dump (S lvl)) <$> L)) "")
      as [tail Htail].
    rewrite append_nil_r in Htail. rewrite Htail, length_append in Hlen.
    pose proof (dump_member_length key (dump (S lvl) v)). lia. }
  pose proof (dump_member_length key (dump (S lvl) v)) as Hmem.
  destruct L as [|[key2 v2] L].
  - clear IH. cbn [fmap list_fmap dump_items] in Hlen |- *.
    rewrite length_append in Hlen. rewrite append_assoc.
    rewrite parse_member; [|by auto with lia|lia|done].
    by rewrite append_assoc, skip_ws_newline_indent.
  - cbn [fmap list_fmap prod_map fst snd id] in Hlen |- *.
    rewrite dump_items_cons2 in Hlen |- *.
    rewrite !length_append in Hlen. rewrite !append_assoc.
    rewrite parse_member; [|by auto with lia|lia|done].
    rewrite append_cons, skip_ws_comma. simpl (Ascii.eqb _ _). cbv iota.
    rewrite skip_ws_newline_indent, skip_ws_dump_members.
    apply (IH f (<[key := v]> acc)); [by auto with lia|done|].
    cbn [fmap list_fmap prod_map fst snd id]. cbn [String.length] in Hlen. lia.
Qed.

Lemma foldl_insert_list_to_map (L : list (string * json)) (acc : dict) :
  NoDup L.*1 →
  foldl (λ a kv, <[kv.1 := kv.2]> a) acc L = list_to_map L ∪ acc.
Proof.
  revert acc. induction L as [|[key v] L IH]; intros acc HL; simpl.
  { by rewrite (left_id_L ∅ (∪)). }
  apply NoDup_cons in HL as [Hkey HL]. rewrite IH by done.
  rewrite <-insert_union_l. apply symmetry, insert_union_r.
  by apply not_elem_of_list_to_map_1.
Qed.

Lemma foldl_insert_map_to_list (m : dict) :
  foldl (λ a kv, <[kv.1 := kv.2]> a) ∅ (map_to_list m) = m.
Proof.
  rewrite foldl_insert_list_to_map by apply NoDup_fst_map_to_list.
  by rewrite list_to_map_to_list, (right_id_L ∅ (∪)).
Qed.

(** With enough fuel, every dumped value parses back. *)
Lemma parse_value_dump fuel : roundtrips fuel.
Proof.
  induction fuel as [fuel IH] using lt_wf_ind. intros v lvl rest Hlen Hrest.
  destruct fuel as [|f].
  { pose proof (dump_length_pos lvl v). lia. }
  destruct v as [|[]|n|s|l|m]; try done.
  - (* an integer *)
    cbn [dump]. destruct (dump_int_head n rest) as (c & r & Heq & Hc).
    destruct (int_start_not_other _ Hc) as (H1 & H2 & H3 & H4 & H5 & H6).
    pose proof (parse_int_dump n rest Hrest) as Hparse.
    rewrite Heq in Hparse |- *. cbn [parse_value].
    by rewrite H1, H2, H3, H4, H5, H6.
  - (* a string *)
    cbn [dump]. unfold dump_string. rewrite append_cons, append_assoc.
    change (String dquote "" ++ rest) with (String dquote rest).
    cbn [parse_value]. simpl (Ascii.eqb _ _). cbv iota.
    by rewrite scan_string_escape.
  - (* a list *)
    cbn [dump] in Hlen |- *. destruct l as [|v l]; [done|].
    unfold dump_array in Hlen |- *. cbn [map] in Hlen |- *.
    change (dump (S lvl) v :: map (dump (S lvl)) l)
      with (map (dump (S lvl)) (v :: l)) in Hlen |- *.
    rewrite append_cons, append_assoc. cbn [parse_value].
    simpl (Ascii.eqb _ _). cbv iota. rewrite skip_ws_newline_indent.
    cbn [map]. rewrite skip_ws_dump_items.
    destruct (dump_items_cons (String "," (newline_indent (S lvl)))
                (newline_indent lvl ++ "]") (dump (S lvl) v)
                (map (dump (S lvl)) l) rest) as [tail Htail].
    destruct (dump_head (S lvl) v tail) as (c & r & Heq & Hc).
    rewrite Htail, Heq. destruct (value_start_not_close _ Hc) as [-> _].
    rewrite <-Heq, <-Htail.
    change (dump (S lvl) v :: map (dump (S lvl)) l)
      with (map (dump (S lvl)) (v :: l)).
    rewrite parse_elements_dump; [done|by auto with lia|done|].
    cbn [String.length] in Hlen. rewrite length_append in Hlen. lia.
  - (* a dictionary *)
    cbn [dump] in Hlen |- *. rewrite map_to_list_fmap in Hlen |- *.
    pose proof (foldl_insert_map_to_list m) as Hm.
    destruct (map_to_list m) as [|[key v] L]; [by rewrite <-Hm|].
    unfold dump_object in Hlen |- *.
    cbn [fmap list_fmap prod_map fst snd id] in Hlen |- *.
    rewrite append_cons, append_assoc. cbn [parse_value].
    simpl (Ascii.eqb _ _). cbv iota.
    rewrite skip_ws_newline_indent, skip_ws_dump_members.
    destruct (dump_items_cons (String "," (newline_indent (S lvl)))
                (newline_indent lvl ++ "}")
                (dump_member (key, dump (S lvl) v))
                (dump_member <$> (prod_map id (dump (S lvl)) <$> L)) rest)
      as [tail Htail].
    rewrite Htail, dump_member_append. simpl (Ascii.eqb _ _). cbv iota.
    rewrite <-dump_member_append, <-Htail, <-Hm.
    apply (parse_members_dump f lvl ((key, v) :: L) ∅ rest);
      [by auto with lia|done|].
    cbn [fmap list_fmap prod_map fst snd id].
    cbn [String.length] in Hlen. rewrite length_append in Hlen. lia.
Qed.

(** [loads] undoes [dumps]. *)
Lemma loads_dumps v : loads (dumps v) = Some v.
Proof.
  unfold loads, dumps.
  rewrite <-(append_nil_r (dump 0 v)) at 2. rewrite skip_ws_dump.
  rewrite parse_value_dump; [done|lia|done].
Qed.

(** *** The parser and the documents [json.loads] accepts *)

Lemma scan_digits_rest s acc acc' :
  snd (scan_digits s acc) = snd (scan_digits s acc').
Proof.
  revert acc acc'. induction s as [|c s IH]; intros acc acc'; simpl; [done|].
  destruct (is_digit c); [apply IH|done].
Qed.

Lemma skip_string_scan s str rest :
  scan_string s = Some (str, rest) → skip_string s = Some rest.
Proof.
  remember (String.length s) as n eqn:Hn. revert s str rest Hn.
  induction (lt_wf n) as [n _ IH]. intros s str rest -> Hscan.
  destruct s as [|c r]; [done|]. simpl in *.
  destruct (Ascii.eqb c dquote); [by simplify_eq|].
  destruct (Ascii.eqb c backslash).
  - destruct r as [|e r']; [done|].
    destruct (Ascii.eqb e "u").
    + destruct r' as [|h1 [|h2 [|h3 [|h4 r'']]]]; try done.
      unfold unescape_u in Hscan.
      destruct (hex_value h1), (hex_value h2), (hex_value h3), (hex_value h4);
        try done.
      destruct (_ && _); [|done].
      destruct (scan_string r'') as [[str' rest']|] eqn:Hr; [|done].
      simplify_eq. eapply (IH (String.length r'')); [simpl; lia|done|done].
    + destruct (unescape e); [|done].
      destruct (scan_string r') as [[str' rest']|] eqn:Hr; [|done].
      simplify_eq. eapply (IH (String.length r')); [simpl; lia|done|done].
  - destruct (code c <? 32)%N; [done|].
    destruct (scan_string r) as [[str' rest']|] eqn:Hr; [|done].
    simplify_eq. eapply (IH (String.length r)); [simpl; lia|done|done].
Qed.

Lemma skip_fraction_id s :
  starts_with is_float_mark s = false → skip_fraction s = s.
Proof.
  destruct s as [|c [|d r]]; try done. simpl. unfold is_float_mark.
  destruct (Ascii.eqb c "."); [done|done].
Qed.

Lemma skip_exponent_id s :
  starts_with is_float_mark s = false → skip_exponent s = s.
Proof.
  destruct s as [|c r]; try done. simpl. unfold is_float_mark.
  destruct (Ascii.eqb c "."), (Ascii.eqb c "e"), (Ascii.eqb c "E"); done.
Qed.

Lemma skip_number_digits neg c r v rest :
  parse_digits neg (String c r) = Some (v, rest) →
  (if negb (is_digit c) then None
   else Some (skip_exponent (skip_fraction
          (if Ascii.eqb c "0" then r else snd (scan_digits r 0)))))
  = Some rest.
Proof.
  unfold parse_digits. destruct (is_digit c) eqn:Hc; [|done]. simpl.
  destruct (Ascii.eqb c "0") eqn:H0.
  - destruct (starts_with is_digit r) eqn:Hr; [done|]. simpl.
    rewrite Hc. apply Ascii.eqb_eq in H0 as ->.
    assert (scan_digits r (0 * 10 + (code "0" - 48))
            = ((0 * 10 + (code "0" - 48))%N, r)) as ->.
    { destruct r as [|d r]; [done|]. simpl in *. by rewrite Hr. }
    destruct (starts_with is_float_mark r) eqn:Hf; [done|].
    intros [= <- <-]. by rewrite skip_fraction_id, skip_exponent_id.
  - simpl. rewrite Hc.
    destruct (scan_digits r _) as [n rest'] eqn:Hs.
    destruct (starts_with is_float_mark rest') eqn:Hf; [done|].
    intros [= <- <-].
    rewrite (scan_digits_rest r 0 (0 * 10 + (code c - 48))), Hs. simpl.
    by rewrite skip_fraction_id, skip_exponent_id.
Qed.

Lemma skip_number_int s v rest :
  parse_int s = Some (v, rest) → skip_number s = Some rest.
Proof.
  unfold parse_int, skip_number. destruct s as [|c r]; [done|].
  destruct (Ascii.eqb c "-") eqn:Hm.
  - destruct r as [|c' r']; [done|]. apply skip_number_digits.
  - apply skip_number_digits.
Qed.

Local Arguments word : simpl never.

Lemma accept_value_parse fuel :
  (∀ s v rest, parse_value fuel s = Some (v, rest) →
     accept_value fuel s = Some rest)
  ∧ (∀ s acc v rest, parse_elements fuel s acc = Some (v, rest) →
       accept_elements fuel s = Some rest)
  ∧ (∀ s acc v rest, parse_members fuel s acc = Some (v, rest) →
       accept_members fuel s = Some rest).
Proof.
  induction fuel as [|fuel (IHv & IHe & IHm)]; [done|]. split_and!.
  - intros s v rest. simpl. destruct s as [|c r]; [done|].
    destruct (Ascii.eqb c dquote).
    { destruct (scan_string r) as [[str r']|] eqn:Hs; [|done].
      intros [= <- <-]. by eapply skip_string_scan. }
    destruct (Ascii.eqb c "{").
    { destruct (skip_ws r) as [|c' r'] eqn:Hr; [done|].
      destruct (Ascii.eqb c' "}"); [by intros [= <- <-]|]. apply IHm. }
    destruct (Ascii.eqb c "[").
    { destruct (skip_ws r) as [|c' r'] eqn:Hr; [done|].
      destruct (Ascii.eqb c' "]"); [by intros [= <- <-]|]. apply IHe. }
    destruct (Ascii.eqb c "n").
    { destruct (word "ull" r); [by intros [= <- <-]|done]. }
    destruct (Ascii.eqb c "t").
    { destruct (word "rue" r); [by intros [= <- <-]|done]. }
    destruct (Ascii.eqb c "f").
    { destruct (word "alse" r); [by intros [= <- <-]|done]. }
    intros Hint. by rewrite (skip_number_int _ _ _ Hint).
  - intros s acc v rest. simpl.
    destruct (parse_value fuel s) as [[v' r]|] eqn:Hv; [|done].
    rewrite (IHv _ _ _ Hv).
    destruct (skip_ws r) as [|c r']; [done|].
    destruct (Ascii.eqb c "]"); [by intros [= <- <-]|].
    destruct (Ascii.eqb c ","); [apply IHe|done].
  - intros s acc v rest. simpl. destruct s as [|q r]; [done|].
    destruct (Ascii.eqb q dquote); [|done]. simpl.
    destruct (scan_string r) as [[key r1]|] eqn:Hs; [|done].
    rewrite (skip_string_scan _ _ _ Hs).
    destruct (skip_ws r1) as [|colon r2]; [done|].
    destruct (Ascii.eqb colon ":"); [|done]. simpl.
    destruct (parse_value fuel (skip_ws r2)) as [[v' r3]|] eqn:Hv; [|done].
    rewrite (IHv _ _ _ Hv).
    destruct (skip_ws r3) as [|c r4]; [done|].
    destruct (Ascii.eqb c "}"); [by intros [= <- <-]|].
    destruct (Ascii.eqb c ","); [apply IHm|done].
Qed.

(** Every text [loads] gives a value for is one [json.loads] accepts. *)
Lemma loads_accepts text v : loads text = Some v → accepts text = true.
Proof.
  unfold loads, accepts.
  destruct (parse_value _ _) as [[v' rest]|] eqn:Hv; [|done].
  destruct (accept_value_parse (S (String.length text))) as (Hacc & _).
  rewrite (Hacc _ _ _ Hv). by destruct (skip_ws rest).
Qed.


(** On every text it writes, [loads] answers as [json.loads] does. *)
Lemma faithful_on_dumps v : faithful_on (dumps v) = true.
Proof. unfold faithful_on. by rewrite loads_dumps. Qed.

End PyJsonFacts.

(** Python's [json] module, as modelled by [PyJson]: on the texts of
    [PyJson.faithful_on], which include every text the module writes. *)
#[export] Instance py_json : JsonCodec := {
  json_dumps := PyJson.dumps;
  json_loads := PyJson.loads;
  json_loads_dumps := PyJsonFacts.loads_dumps
}.

(** * The properties on the sample files

    Every run below uses the codec [py_json] and files the test suite
    writes: each property is applied to one of them, and the two
    properties that fail as the spec words them are shown to fail. *)

Section SampleRuns.
Import Samples.

Lemma custom_config_text_loads :
  json_loads custom_config_text = Some (JObj custom_config).
Proof. by vm_compute. Qed.

Lemma corrupt_text_loads : json_loads corrupt_text = None.
Proof. by vm_compute. Qed.

(** On the sample files the codec answers as Python does: it gives the
    value of the two documents, and [corrupt_text] is a text [json.loads]
    rejects, not a document outside the model. *)
Lemma samples_faithful :
  PyJson.faithful_on custom_config_text = true
  ∧ PyJson.faithful_on array_text = true
  ∧ PyJson.accepts corrupt_text = false.
Proof. by vm_compute. Qed.

(** Where the codec stops: [json.loads] accepts a document that holds a
    float, and the codec has no value for it. *)
Lemma float_text_outside :
  PyJson.accepts float_text = true ∧ json_loads float_text = None.
Proof. by vm_compute. Qed.

(** A file that holds a JSON array is outside the three file states of
    the spec: [load_config] raises [TypeError] and leaves it as it is. *)
Lemma load_config_on_array :
  config_state (File array_text) = false
  ∧ load_config (File array_text) = (Raise TypeError, File array_text).
Proof.
  split; [by vm_compute|].
  by apply (load_config_not_a_mapping _ (JList [JInt 1; JInt 2])).
Qed.

Lemma test_config_flat_scalar : flat_scalar test_config.
Proof.
  unfold flat_scalar, test_config.
  repeat apply map_Forall_insert_2; [done..|apply map_Forall_empty].
Qed.

(** C1, as stated, fails: [test_config] is a flat scalar mapping, and
    [load_config] after [save_config test_config] does not return it (the
    result has the default keys as well). *)
Lemma save_then_load_not_identity :
  flat_scalar test_config
  ∧ returned (save_config test_config ;; load_config) NoFile
    ≠ Ok test_config.
Proof.
  split; [apply test_config_flat_scalar|].
  unfold returned, bind. rewrite save_config_run, load_config_saved.
  intros Heq.
  apply (f_equal (λ r, match r with
                       | Ok m => m !! "default_shuffle"
                       | Raise _ => None
                       end)) in Heq.
  by vm_compute in Heq.
Qed.

Lemma save_then_load_witness :
  returned (save_config test_config ;; load_config) NoDir
  = Ok (test_config ∪ DEFAULT_CONFIG).
Proof. apply (save_then_load test_config NoDir). Defined.

(** C2, as stated, fails: a file whose bytes are not text does not parse
    as JSON, and [load_config] does not repair it.  Reading it raises
    [UnicodeDecodeError], which no handler names: nothing is returned and
    the file stays as it was. *)
Lemma load_config_on_undecodable :
  returned load_config (File (Bytes undecodable_bytes))
  = Raise UnicodeDecodeError
  ∧ disk_after load_config (File (Bytes undecodable_bytes))
    = File (Bytes undecodable_bytes).
Proof. split; reflexivity. Qed.

Lemma load_config_repairs_malformed_witness :
  json_loads corrupt_text = None
  ∧ returned load_config (File corrupt_text) = Ok DEFAULT_CONFIG
  ∧ disk_after load_config (File corrupt_text)
    = File (json_dumps (JObj DEFAULT_CONFIG))
  ∧ json_loads (json_dumps (JObj DEFAULT_CONFIG))
    = Some (JObj DEFAULT_CONFIG).
Proof.
  split; [by vm_compute|].
  apply (load_config_repairs_malformed corrupt_text). by vm_compute.
Defined.

Lemma load_config_creates_file_witness :
  absent NoDir
  ∧ returned load_config NoDir = Ok DEFAULT_CONFIG
  ∧ disk_after load_config NoDir = File (json_dumps (JObj DEFAULT_CONFIG)).
Proof.
  split; [exact I|].
  destruct (load_config_creates_file NoDir I) as (_ & _ & Hret & Hdisk & _).
  by split.
Defined.

Lemma load_config_merges_witness :
  json_loads custom_config_text = Some (JObj custom_config)
  ∧ ∃ m, returned load_config (File custom_config_text) = Ok m
      ∧ m !! "default_preview_length" = Some (JInt 45)
      ∧ m !! "custom_setting" = Some (JStr "test")
      ∧ m !! "min_liked_for_artist" = Some (JInt 1).
Proof.
  split; [by vm_compute|].
  destruct (load_config_merges custom_config_text custom_config)
    as (m & Hret & _ & Hwin & Hfill); [by vm_compute|].
  exists m. repeat split.
  - exact Hret.
  - by apply Hwin.
  - by apply Hwin.
  - by rewrite Hfill.
Defined.

Lemma load_config_default_keys_witness :
  ∃ m, returned load_config (File custom_config_text) = Ok m
    ∧ dom DEFAULT_CONFIG ⊆ dom m.
Proof.
  destruct (load_config_default_keys (File custom_config_text))
    as [Hkeys Hreturns].
  destruct Hreturns as [m Hm]; [by vm_compute|].
  exists m. split; [exact Hm|]. by apply Hkeys.
Defined.

(** C6, as stated, fails: on a file that holds a JSON array,
    [set_config_value] raises [TypeError] (from its [load_config]), so that
    no mapping comes back and the file stays as it was. *)
Lemma set_then_load_on_array :
  returned (set_config_value "min_liked_for_artist" (JInt 5) ;; load_config)
    (File array_text) = Raise TypeError
  ∧ disk_after (set_config_value "min_liked_for_artist" (JInt 5))
      (File array_text) = File array_text.
Proof.
  unfold returned, disk_after, set_config_value, bind.
  destruct load_config_on_array as [_ ->]. done.
Qed.

(** Nor does it hold on a file whose bytes are not text:
    [set_config_value] raises [UnicodeDecodeError] (from its
    [load_config]) and writes nothing. *)
Lemma set_then_load_on_undecodable :
  returned (set_config_value "min_liked_for_artist" (JInt 5) ;; load_config)
    (File (Bytes undecodable_bytes)) = Raise UnicodeDecodeError
  ∧ disk_after (set_config_value "min_liked_for_artist" (JInt 5))
      (File (Bytes undecodable_bytes)) = File (Bytes undecodable_bytes).
Proof. split; reflexivity. Qed.

Lemma set_then_load_witness :
  config_state NoDir = true
  ∧ ∃ before after,
      returned load_config NoDir = Ok before
      ∧ returned (set_config_value "min_liked_for_artist" (JInt 5) ;;
                  load_config) NoDir = Ok after
      ∧ after !! "min_liked_for_artist" = Some (JInt 5)
      ∧ (∀ k', k' ≠ "min_liked_for_artist" → after !! k' = before !! k').
Proof.
  split; [reflexivity|].
  apply (set_then_load "min_liked_for_artist" (JInt 5) NoDir). reflexivity.
Defined.

Lemma reset_then_load_witness :
  ∃ m, returned (reset_to_defaults ;; load_config) (File custom_config_text)
       = Ok m
    ∧ m = DEFAULT_CONFIG
    ∧ (∀ k, k ∉ dom DEFAULT_CONFIG → m !! k = None).
Proof. apply (reset_then_load (File custom_config_text)). Defined.

Lemma get_config_value_witness :
  returned (get_config_value "min_liked_for_artist" None) NoDir = Ok (JInt 1)
  ∧ returned (get_config_value "non_existent_key"
                (Some (JStr "default_value"))) NoDir
    = Ok (JStr "default_value")
  ∧ returned (get_config_value "non_existent_key" None) NoDir = Ok JNull.
Proof.
  destruct (get_config_value_spec "min_liked_for_artist" JNull NoDir)
    as [Hliked Hload].
  destruct (get_config_value_spec "non_existent_key" (JStr "default_value")
              NoDir) as [Hnone _].
  specialize (Hload eq_refl).
  destruct (Hliked _ Hload) as [Hkey _].
  destruct (Hnone _ Hload) as [_ Hmiss].
  split_and!.
  - by apply (Hkey (JInt 1)).
  - by apply Hmiss.
  - by apply Hmiss.
Defined.

Lemma load_config_idempotent_witness :
  returned load_config (disk_after load_config (File corrupt_text))
  = returned load_config (File corrupt_text)
  ∧ disk_after load_config (disk_after load_config (File corrupt_text))
    = disk_after load_config (File corrupt_text).
Proof.
  destruct (load_config_idempotent (File corrupt_text)) as (Hret & Hdisk & _).
  by split.
Defined.

Lemma set_config_value_on_absent_witness :
  absent NoDir
  ∧ ∃ text m,
      returned (set_config_value "setting_one" (JStr "value_one")) NoDir
      = Ok tt
      ∧ disk_after (set_config_value "setting_one" (JStr "value_one")) NoDir
        = File text
      ∧ json_loads text = Some (JObj m)
      ∧ m = <["setting_one" := JStr "value_one"]> DEFAULT_CONFIG
      ∧ size DEFAULT_CONFIG = 6%nat
      ∧ dom DEFAULT_CONFIG ⊆ dom m
      ∧ m !! "setting_one" = Some (JStr "value_one")
      ∧ m ≠ {["setting_one" := JStr "value_one"]}.
Proof.
  split; [exact I|].
  apply (set_config_value_on_absent "setting_one" (JStr "value_one") NoDir).
  exact I.
Defined.

End SampleRuns.

(** * How the operations compose *)

Section MoreProperties.
Context `{codec : JsonCodec}.

Implicit Types (st : disk) (X Y D : dict) (k : string) (v : json).

Lemma config_state_saved X : config_state (File (json_dumps (JObj X))) = true.
Proof. unfold config_state. by rewrite classify_saved. Qed.

Lemma persisted_saved X : persisted (File (json_dumps (JObj X))) = X.
Proof. unfold persisted. by rewrite classify_saved. Qed.

Lemma set_config_value_run k v st :
  config_state st = true →
  set_config_value k v st
  = (Ok tt, File (json_dumps (JObj (<[k := v]> (persisted st ∪ DEFAULT_CONFIG))))).
Proof.
  intros Hst. unfold set_config_value, bind.
  rewrite (load_config_config_state _ Hst). apply save_config_run.
Qed.

Lemma get_config_value_run k d st :
  config_state st = true →
  get_config_value k d st
  = (Ok (match (persisted st ∪ DEFAULT_CONFIG) !! k with
         | Some v => v
         | None => match d with Some d' => d' | None => JNull end
         end), healed st).
Proof.
  intros Hst. unfold get_config_value, bind.
  by rewrite (load_config_config_state _ Hst).
Qed.

(** The defaults are already in a mapping merged over them. *)
Lemma insert_union_defaults D k v :
  <[k := v]> (D ∪ DEFAULT_CONFIG) ∪ DEFAULT_CONFIG
  = <[k := v]> (D ∪ DEFAULT_CONFIG).
Proof.
  apply union_defaults_id. rewrite dom_insert_L, dom_union_L.
  etrans; [apply union_subseteq_r|apply union_subseteq_r].
Qed.

(** X1: [save_config] never fails on a path that is free or holds a file,
    whatever the file holds: it creates the parent directory when it is
    missing, and the file it leaves loads back with [json.load] as exactly
    the mapping saved. *)
Theorem save_config_file_round_trip X st :
  returned (save_config X) st = Ok tt
  ∧ parent_exists (disk_after (save_config X) st) = true
  ∧ ∃ text, disk_after (save_config X) st = File text
      ∧ json_loads text = Some (JObj X).
Proof.
  unfold returned, disk_after. rewrite save_config_run.
  split_and!; [done..|]. eexists. split; [done|]. apply json_loads_dumps.
Qed.

(** X2: [save_config] replaces the file, it does not merge into it: after
    saving [X] and then [Y] the disk is as after saving [Y] alone, and a
    load returns [Y] over the defaults, in which a key of [X] that neither
    [Y] nor the defaults have is gone. *)
Theorem save_config_overwrites X Y st :
  disk_after (save_config X ;; save_config Y) st
  = disk_after (save_config Y) st
  ∧ ∃ m, returned (save_config X ;; save_config Y ;; load_config) st = Ok m
      ∧ m = Y ∪ DEFAULT_CONFIG
      ∧ (∀ k, Y !! k = None → DEFAULT_CONFIG !! k = None → m !! k = None).
Proof.
  unfold returned, disk_after, bind.
  repeat (first [rewrite save_config_run|rewrite load_config_saved];
          cbv beta iota).
  split; [done|]. eexists. split_and!; [done..|].
  intros k HY HD. by rewrite union_defaults_lookup, HY.
Qed.

(** X3: on a file that holds a mapping, [load_config] and
    [get_config_value] only read: the file keeps its text, so default keys
    the file lacks are merged in memory and never written. *)
Theorem load_config_read_only text D k d :
  json_loads text = Some (JObj D) →
  disk_after load_config (File text) = File text
  ∧ disk_after (get_config_value k d) (File text) = File text.
Proof.
  intros HD. unfold disk_after, get_config_value, bind.
  by rewrite (load_config_valid _ _ HD).
Qed.

(** X4: a file that holds valid JSON whose root is not a mapping is never
    repaired: [load_config], [get_config_value] and [set_config_value] all
    raise [TypeError] and leave the file as it is. *)
Theorem not_a_mapping_raises text v k d value :
  json_loads text = Some v →
  (∀ D, v ≠ JObj D) →
  load_config (File text) = (Raise TypeError, File text)
  ∧ get_config_value k d (File text) = (Raise TypeError, File text)
  ∧ set_config_value k value (File text) = (Raise TypeError, File text).
Proof.
  intros Hv Hnot. unfold get_config_value, set_config_value, bind.
  by rewrite (load_config_not_a_mapping _ _ Hv Hnot).
Qed.

(** X5: [FileNotFoundError] and [JSONDecodeError] never leave the module.
    On a path that is free or holds a file, [save_config] and
    [reset_to_defaults] never raise.  The three operations that load raise
    in two cases, and in no other: [TypeError] when the file holds JSON
    whose root is not a mapping, [UnicodeDecodeError] when the file holds
    bytes that are not text.  When they raise they have written nothing. *)
Theorem handled_exceptions_never_escape X k d v st :
  returned (save_config X) st = Ok tt
  ∧ returned reset_to_defaults st = Ok DEFAULT_CONFIG
  ∧ (∀ e, returned load_config st = Raise e ↔ escaping st = Some e)
  ∧ (∀ e, returned (get_config_value k d) st = Raise e
          ↔ escaping st = Some e)
  ∧ (∀ e, returned (set_config_value k v) st = Raise e
          ↔ escaping st = Some e)
  ∧ (∀ e, escaping st = Some e →
       (e = TypeError ∨ e = UnicodeDecodeError)
       ∧ disk_after load_config st = st
       ∧ disk_after (get_config_value k d) st = st
       ∧ disk_after (set_config_value k v) st = st).
Proof.
  unfold returned, disk_after, reset_to_defaults, get_config_value,
    set_config_value, bind, ret, escaping, healed.
  rewrite !save_config_run, !load_config_run. cbv beta iota. unfold healed.
  destruct (classify st); simpl; rewrite ?save_config_run; simpl;
    split_and!; try done;
    try (intros e; split; intros [= <-]; done);
    intros e [= <-]; split_and!; auto.
Qed.

(** X6: on a file that is absent, holds text which does not parse, or
    holds a mapping, [get_config_value k] after [set_config_value k v]
    returns [v], whatever fallback it is given. *)
Theorem set_then_get k v d st :
  config_state st = true →
  returned (set_config_value k v ;; get_config_value k d) st = Ok v.
Proof.
  intros Hst. unfold returned, bind. rewrite (set_config_value_run _ _ _ Hst).
  rewrite get_config_value_run by apply config_state_saved.
  rewrite persisted_saved, insert_union_defaults. simpl.
  by rewrite lookup_insert_eq.
Qed.

(** X7: on a file that is absent, holds text which does not parse, or
    holds a mapping, [set_config_value k v] writes the whole merged
    configuration: the file it leaves holds the mapping [load_config]
    returned with [v] at [k], so every default key and every key the file
    held before are in it. *)
Theorem set_config_value_file k v st :
  config_state st = true →
  ∃ text m,
    disk_after (set_config_value k v) st = File text
    ∧ json_loads text = Some (JObj m)
    ∧ m = <[k := v]> (persisted st ∪ DEFAULT_CONFIG)
    ∧ m !! k = Some v
    ∧ dom DEFAULT_CONFIG ⊆ dom m
    ∧ dom (persisted st) ⊆ dom m.
Proof.
  intros Hst. unfold disk_after. rewrite (set_config_value_run _ _ _ Hst).
  eexists _, _. split_and!; [done|apply json_loads_dumps|done|..].
  - apply lookup_insert_eq.
  - rewrite dom_insert_L, dom_union_L.
    etrans; [apply union_subseteq_r|apply union_subseteq_r].
  - rewrite dom_insert_L, dom_union_L.
    etrans; [apply union_subseteq_l|apply union_subseteq_r].
Qed.

(** X8: settings do not disturb one another.  After setting [k1], then
    another key [k2], then [k1] again, a load returns what it returned
    before with [k2] at its value and [k1] at its last value. *)
Theorem set_config_value_sequence k1 k2 v1 v2 v1' st :
  config_state st = true →
  k1 ≠ k2 →
  ∃ before after,
    returned load_config st = Ok before
    ∧ returned (set_config_value k1 v1 ;; set_config_value k2 v2 ;;
                set_config_value k1 v1' ;; load_config) st = Ok after
    ∧ after = <[k1 := v1']> (<[k2 := v2]> before)
    ∧ after !! k1 = Some v1'
    ∧ after !! k2 = Some v2.
Proof.
  intros Hst Hne. eexists _, _. unfold returned, bind.
  rewrite (load_config_config_state _ Hst).
  rewrite (set_config_value_run _ _ _ Hst). cbv beta iota.
  rewrite set_config_value_run by apply config_state_saved. cbv beta iota.
  rewrite set_config_value_run by apply config_state_saved. cbv beta iota.
  rewrite load_config_saved, !persisted_saved, !insert_union_defaults.
  simpl. split_and!; [done|done| | |].
  - rewrite (insert_insert_ne _ k2 k1) by done. by rewrite insert_insert_eq.
  - apply lookup_insert_eq.
  - rewrite lookup_insert_ne by done. apply lookup_insert_eq.
Qed.

(** X9: whenever [load_config] returns, a file exists afterwards, it holds
    a mapping, and what was returned is that mapping merged over the
    defaults: memory and disk agree after every load. *)
Theorem load_config_agrees_with_disk st m :
  returned load_config st = Ok m →
  ∃ text D,
    disk_after load_config st = File text
    ∧ json_loads text = Some (JObj D)
    ∧ m = D ∪ DEFAULT_CONFIG.
Proof.
  unfold returned, disk_after. rewrite load_config_run. simpl.
  unfold healed, classify. destruct st as [| |[text|bytes]]; [| | |done].
  1,2: intros [= <-]; eexists _, _; split_and!;
    [done|apply json_loads_dumps|by rewrite (idemp_L (∪))].
  destruct (json_loads text) as [[]|] eqn:Hv; intros [= <-].
  - by eexists _, _.
  - eexists _, _. split_and!;
      [done|apply json_loads_dumps|by rewrite (idemp_L (∪))].
Qed.

(** X10: reading a value can write.  On a path with no file, or with a
    file that holds text which does not parse, [get_config_value] returns
    the default value of the key (the fallback for a key that has none) and
    leaves the defaults on disk. *)
Theorem get_config_value_creates_file k d st :
  absent st ∨ (∃ text, st = File text ∧ json_loads text = None) →
  returned (get_config_value k (Some d)) st
  = Ok (default d (DEFAULT_CONFIG !! k))
  ∧ disk_after (get_config_value k (Some d)) st
    = File (json_dumps (JObj DEFAULT_CONFIG)).
Proof.
  intros Hst. unfold returned, disk_after, get_config_value, bind.
  assert (load_config st
          = (Ok DEFAULT_CONFIG, File (json_dumps (JObj DEFAULT_CONFIG))))
    as ->.
  { destruct Hst as [Hst|(text & -> & Hbad)];
      [by apply load_config_absent|by apply load_config_malformed]. }
  simpl. by destruct (DEFAULT_CONFIG !! k).
Qed.

End MoreProperties.

(** * The file system *)

Module FsFacts.
Import Fs.

Local Arguments parent : simpl never.

Implicit Types (e sub : directory) (p q : path) (d : disk).

Lemma parent_cons name name' p :
  parent (name :: name' :: p) = name :: parent (name' :: p).
Proof. reflexivity. Qed.

Lemma parent_singleton name : parent [name] = [].
Proof. reflexivity. Qed.

Lemma status_cons e name name' p :
  status e (name :: name' :: p)
  = match e !! name with
    | None => Some NoDir
    | Some (Reg _) => None
    | Some (Dir sub) => status sub (name' :: p)
    end.
Proof. simpl. by destruct (e !! name) as [[]|]. Qed.

Lemma read_cons e name name' p :
  read e (name :: name' :: p)
  = match e !! name with
    | None => Raises (Exn FileNotFoundError)
    | Some (Reg _) => Raises NotADirectoryError
    | Some (Dir sub) => read sub (name' :: p)
    end.
Proof. reflexivity. Qed.

Lemma write_cons e name name' p text :
  write e (name :: name' :: p) text
  = match e !! name with
    | None => Raises (Exn FileNotFoundError)
    | Some (Reg _) => Raises NotADirectoryError
    | Some (Dir sub) =>
        match write sub (name' :: p) text with
        | Returns sub' => Returns (<[name := Dir sub']> e)
        | Raises err => Raises err
        end
    end.
Proof. simpl. by destruct (e !! name) as [[]|]. Qed.

(** A chain of new directories holds no file. *)
Lemma new_dirs_no_file p :
  ∃ sub, new_dirs p = Dir sub ∧ ∀ q, data_at sub q = None.
Proof.
  induction p as [|name p (sub & Hsub & IH)]; simpl.
  - exists ∅. split; [done|]. by intros [|n q].
  - exists {[name := new_dirs p]}. split; [reflexivity|].
    intros [|n q]; [done|].
    unfold data_at. simpl. destruct (decide (name = n)) as [->|Hne].
    + rewrite lookup_singleton_eq, Hsub. apply IH.
    + by rewrite lookup_singleton_ne.
Qed.

(** Below new directories, the last component of a path is a missing file
    in an existing directory. *)
Lemma new_dirs_status name p :
  ∃ sub, new_dirs (parent (name :: p)) = Dir sub
    ∧ status sub (name :: p) = Some NoFile.
Proof.
  revert name. induction p as [|name' p IH]; intros name.
  - by exists ∅.
  - rewrite parent_cons. destruct (IH name') as (sub & Hsub & Hstatus).
    exists {[name := new_dirs (parent (name' :: p))]}. split; [reflexivity|].
    by rewrite status_cons, lookup_singleton_eq, Hsub.
Qed.

Lemma read_status e p d :
  status e p = Some d →
  read e p = match d with
             | File text => Returns text
             | _ => Raises (Exn FileNotFoundError)
             end.
Proof.
  revert e. induction p as [|name p IH]; intros e; [done|]. simpl.
  destruct (e !! name) as [[text|sub]|]; [| |by destruct p; intros [= <-]].
  - by destruct p; intros [= <-].
  - apply IH.
Qed.

Lemma status_data_at e p c :
  status e p = Some (File c) ↔ data_at e p = Some c.
Proof.
  unfold data_at. revert e. induction p as [|name p IH]; intros e; [done|].
  simpl. destruct (e !! name) as [[text'|sub]|]; [| |by destruct p].
  - destruct p; [|done]. split; by intros [= ->].
  - apply IH.
Qed.

Lemma status_file_at e p text :
  status e p = Some (File text) ↔ file_at e p = Some text.
Proof.
  rewrite status_data_at. unfold file_at.
  split; [by intros ->|]. by destruct (data_at e p) as [[]|]; intros [= ->].
Qed.

(** [os.makedirs] changes no file. *)
Lemma mkdirs_data_at e p e' q :
  mkdirs e p = Returns e' → data_at e' q = data_at e q.
Proof.
  unfold data_at. revert e e' q.
  induction p as [|name p IH]; intros e e' q; simpl; [by intros [= ->]|].
  destruct (e !! name) as [[text|sub]|] eqn:He.
  - by destruct p.
  - destruct (mkdirs sub p) as [sub'|] eqn:Hsub; intros [= <-].
    destruct q as [|n q]; [done|]. simpl.
    destruct (decide (name = n)) as [->|Hne].
    + rewrite lookup_insert_eq, He. by apply IH.
    + by rewrite lookup_insert_ne.
  - intros [= <-]. destruct q as [|n q]; [done|]. simpl.
    destruct (decide (name = n)) as [->|Hne].
    + rewrite lookup_insert_eq, He.
      destruct (new_dirs_no_file p) as (sub & -> & Hnone).
      apply (Hnone q).
    + by rewrite lookup_insert_ne.
Qed.

(** [os.makedirs] keeps every directory. *)
Lemma mkdirs_is_dir e p e' q :
  mkdirs e p = Returns e' → is_dir e q = true → is_dir e' q = true.
Proof.
  revert e e' q.
  induction p as [|name p IH]; intros e e' q; simpl; [by intros [= ->]|].
  destruct (e !! name) as [[text|sub]|] eqn:He.
  - by destruct p.
  - destruct (mkdirs sub p) as [sub'|] eqn:Hsub; intros [= <-].
    destruct q as [|n q]; [done|]. simpl.
    destruct (decide (name = n)) as [->|Hne].
    + rewrite lookup_insert_eq, He. by apply IH.
    + by rewrite lookup_insert_ne.
  - intros [= <-]. destruct q as [|n q]; [done|]. simpl.
    destruct (decide (name = n)) as [->|Hne].
    + by rewrite He.
    + by rewrite lookup_insert_ne.
Qed.

Lemma new_dirs_is_dir p q :
  q `prefix_of` p →
  ∃ sub, new_dirs p = Dir sub ∧ is_dir sub q = true.
Proof.
  revert q. induction p as [|name p IH]; intros q Hq.
  - apply prefix_nil_inv in Hq as ->. by exists ∅.
  - exists {[name := new_dirs p]}. split; [reflexivity|].
    destruct q as [|n q]; [done|].
    apply prefix_cons_inv_1 in Hq as Hn. apply prefix_cons_inv_2 in Hq as Hq'.
    subst n. simpl. rewrite lookup_singleton_eq.
    by destruct (IH q Hq') as (sub & -> & ?).
Qed.

(** After [os.makedirs(p)], [p] and all its parents are directories. *)
Lemma mkdirs_creates e p e' q :
  mkdirs e p = Returns e' → q `prefix_of` p → is_dir e' q = true.
Proof.
  revert e e' q.
  induction p as [|name p IH]; intros e e' q; simpl.
  { by intros _ ->%prefix_nil_inv. }
  destruct q as [|n q]; [done|]. intros Hmk Hq.
  apply prefix_cons_inv_1 in Hq as Hn. apply prefix_cons_inv_2 in Hq as Hq'.
  subst n. simpl.
  destruct (e !! name) as [[text|sub]|] eqn:He.
  - by destruct p.
  - destruct (mkdirs sub p) as [sub'|] eqn:Hsub; simplify_eq.
    rewrite lookup_insert_eq. by eapply IH.
  - simplify_eq. rewrite lookup_insert_eq.
    by destruct (new_dirs_is_dir p q Hq') as (sub & -> & ?).
Qed.

(** On a path the one-path model covers, [os.makedirs] of the parent does
    what [makedirs] does there. *)
Lemma mkdirs_status e p d :
  status e p = Some d →
  ∃ e', mkdirs e (parent p) = Returns e'
    ∧ status e' p = Some (disk_after makedirs d)
    ∧ (d ≠ NoDir → e' = e).
Proof.
  revert e. induction p as [|name p IH]; intros e; [done|].
  destruct p as [|name' p].
  { intros Hd. exists e. split_and!; [done| |done].
    simpl in Hd |- *. by destruct (e !! name) as [[]|]; simplify_eq. }
  rewrite parent_cons. cbn [status mkdirs].
  destruct (e !! name) as [[text|sub]|] eqn:He; [done| |].
  - intros (sub' & -> & Hstatus & Hsame)%IH.
    eexists. split_and!; [done| |].
    + cbn [status]. by rewrite lookup_insert_eq.
    + intros ->%Hsame. by apply insert_id.
  - intros [= <-]. eexists. split_and!; [done| |done].
    destruct (new_dirs_status name' p) as (sub & Hsub & Hstatus).
    cbn [status]. by rewrite lookup_insert_eq, Hsub.
Qed.

(** ... and [open(p, 'w')] does what [open_write] does. *)
Lemma write_status e p d text :
  status e p = Some d →
  match d with
  | NoDir => write e p text = Raises (Exn FileNotFoundError)
  | _ => ∃ e', write e p text = Returns e'
           ∧ status e' p = Some (File text)
  end.
Proof.
  revert e. induction p as [|name p IH]; intros e; [done|]. cbn [status write].
  destruct (e !! name) as [[text'|sub]|] eqn:He.
  - destruct p; [|done]. intros [= <-]. eexists. split; [done|].
    cbn [status]. by rewrite lookup_insert_eq.
  - intros Hd. specialize (IH sub Hd). destruct d.
    + by rewrite IH.
    + destruct IH as (sub' & -> & Hstatus). eexists. split; [done|].
      destruct p; [done|]. cbn [status]. by rewrite lookup_insert_eq.
    + destruct IH as (sub' & -> & Hstatus). eexists. split; [done|].
      destruct p; [done|]. cbn [status]. by rewrite lookup_insert_eq.
  - destruct p; intros [= <-]; [|done]. eexists. split; [done|].
    cbn [status]. by rewrite lookup_insert_eq.
Qed.

(** [open(p, 'w')] changes no file but the one at [p]. *)
Lemma write_data_at e p text e' q :
  write e p text = Returns e' → q ≠ p → data_at e' q = data_at e q.
Proof.
  unfold data_at. revert e e' q.
  induction p as [|name p IH]; intros e e' q; [done|]. cbn [write].
  destruct q as [|n q]; [done|]. simpl.
  destruct (decide (name = n)) as [->|Hne].
  - destruct (e !! n) as [[text'|sub]|] eqn:He.
    + destruct p; [|done]. intros [= <-] Hq. rewrite lookup_insert_eq.
      destruct q; [done|done].
    + destruct (write sub p text) as [sub'|] eqn:Hsub; intros [= <-] Hq.
      rewrite lookup_insert_eq. apply (IH _ _ _ Hsub). congruence.
    + destruct p; [|done]. intros [= <-] Hq. rewrite lookup_insert_eq.
      destruct q; [done|done].
  - intros Hw _. assert (e' !! n = e !! n) as ->; [|done].
    destruct (e !! name) as [[text'|sub]|], p;
      try destruct (write sub _ text); simplify_eq;
      by rewrite lookup_insert_ne.
Qed.

(** [open(p, 'w')] keeps every directory. *)
Lemma write_is_dir e p text e' q :
  write e p text = Returns e' → is_dir e q = true → is_dir e' q = true.
Proof.
  revert e e' q. induction p as [|name p IH]; intros e e' q; [done|].
  cbn [write]. destruct q as [|n q]; [done|]. simpl.
  destruct (decide (name = n)) as [->|Hne].
  - destruct (e !! n) as [[text'|sub]|] eqn:He; [done| |done].
    destruct (write sub p text) as [sub'|] eqn:Hsub; intros [= <-].
    rewrite lookup_insert_eq. by apply IH.
  - intros Hw. assert (e' !! n = e !! n) as ->; [|done].
    destruct (e !! name) as [[text'|sub]|], p;
      try destruct (write sub _ text); simplify_eq;
      by rewrite lookup_insert_ne.
Qed.

(** Where the one-path model sees the parent directory, all the
    directories down to it exist. *)
Lemma status_parent_is_dir e p d q :
  status e p = Some d → d ≠ NoDir → q `prefix_of` parent p →
  is_dir e q = true.
Proof.
  revert e q. induction p as [|name p IH]; intros e q; [done|].
  destruct p as [|name' p].
  { rewrite parent_singleton. by intros _ _ ->%prefix_nil_inv. }
  rewrite parent_cons, status_cons. destruct q as [|n q]; [done|].
  intros Hst Hd Hq.
  apply prefix_cons_inv_1 in Hq as Hn. apply prefix_cons_inv_2 in Hq as Hq'.
  subst n. simpl. destruct (e !! name) as [[text|sub]|]; [done| |congruence].
  by eapply IH.
Qed.

(** On a path the one-path model does not cover, reading fails with an
    operating-system error, and so does creating the parent directory or,
    after it, writing; nothing is created. *)
Lemma blocked_path e p :
  status e p = None →
  (∃ err, read e p = Raises err ∧ os_error err = true)
  ∧ ((∃ err, mkdirs e (parent p) = Raises err ∧ os_error err = true)
     ∨ (mkdirs e (parent p) = Returns e
        ∧ ∀ text, write e p text = Raises IsADirectoryError)).
Proof.
  revert e. induction p as [|name p IH]; intros e.
  { intros _. split; [by eexists|]. by right. }
  destruct p as [|name' p].
  - simpl. destruct (e !! name) as [[text'|sub]|] eqn:He; [done| |done].
    intros _. split; [by eexists|]. by right.
  - rewrite parent_cons, status_cons, read_cons. cbn [mkdirs].
    destruct (e !! name) as [[text'|sub]|] eqn:He; [| |done].
    + intros _. split; [by eexists|]. left. destruct (parent _); by eexists.
    + intros [Hread Hwrite]%IH. split; [done|].
      destruct Hwrite as [(err & -> & Herr)|[-> Hw]].
      * left. by eexists.
      * right. rewrite insert_id by done. split; [done|]. intros text.
        by rewrite write_cons, He, Hw.
Qed.

End FsFacts.

(** * The module in its world *)

Module WorldFacts.
Import Fs FsFacts Client.

Section Facts.
Context `{codec : JsonCodec}.

Implicit Types (w : World.world) (p q : path) (x : World.pydict).

(** *** What every operation leaves alone *)

Lemma frame_refl w : frame w w.
Proof. by repeat split. Qed.

Lemma frame_trans w1 w2 w3 : frame w1 w2 → frame w2 w3 → frame w1 w3.
Proof.
  intros (Hp1 & Hd1 & Hf1) (Hp2 & Hd2 & Hf2). split_and!; [congruence..|].
  intros q Hq. rewrite Hf2, Hf1; [done..|congruence].
Qed.

Lemma keeps_ret {A} (P : A → Prop) a : P a → keeps P (World.ret a).
Proof. intros Ha w. split; [apply frame_refl|]. by intros a' [= <-]. Qed.

Lemma keeps_raise {A} (P : A → Prop) e : keeps P (World.raise e).
Proof. intros w. split; [apply frame_refl|done]. Qed.

Lemma keeps_weaken {A} (P Q : A → Prop) m :
  (∀ a, P a → Q a) → keeps P m → keeps Q m.
Proof. intros HPQ Hm w. destruct (Hm w). naive_solver. Qed.

Lemma keeps_bind {A B} (P : A → Prop) (Q : B → Prop) m k :
  keeps P m → (∀ a, P a → keeps Q (k a)) → keeps Q (World.bind m k).
Proof.
  intros Hm Hk w. unfold World.bind.
  destruct (Hm w) as [Hframe Hpost]. destruct (m w) as [[a|e] w1]; simpl in *.
  - destruct (Hk a (Hpost a eq_refl) w1) as [Hframe' Hpost'].
    split; [by eapply frame_trans|done].
  - done.
Qed.

Lemma keeps_try_except {A} (P : A → Prop) body handler :
  keeps P body → (∀ e, keeps P (handler e)) →
  keeps P (World.try_except body handler).
Proof.
  intros Hm Hh w. unfold World.try_except.
  destruct (Hm w) as [Hframe Hpost]. destruct (body w) as [[a|e] w1].
  - done.
  - simpl in *. destruct (Hh e w1) as [Hframe' Hpost'].
    split; [by eapply frame_trans|done].
Qed.

Lemma keeps_open_read : keeps (λ _, True) World.open_read.
Proof. intros w. split; [apply frame_refl|done]. Qed.

Lemma keeps_makedirs : keeps (λ _, True) World.makedirs.
Proof.
  intros w. split; [|done]. unfold World.makedirs.
  destruct (mkdirs _ _) as [r|e] eqn:Hr; [|apply frame_refl].
  split_and!; [done..|]. intros q _. by eapply mkdirs_data_at.
Qed.

Lemma keeps_open_write text : keeps (λ _, True) (World.open_write text).
Proof.
  intros w. split; [|done]. unfold World.open_write.
  destruct (write _ _ _) as [r|e] eqn:Hr; [|apply frame_refl].
  split_and!; [done..|]. intros q Hq. by eapply write_data_at.
Qed.

Lemma keeps_contents x : keeps (λ _, True) (World.contents x).
Proof. intros w. split; [apply frame_refl|done]. Qed.

Lemma keeps_copy x : keeps is_fresh (World.copy x).
Proof.
  eapply keeps_bind; [apply keeps_contents|]. intros d _. by apply keeps_ret.
Qed.

Lemma keeps_setitem x key value :
  is_fresh x → keeps is_fresh (World.setitem x key value).
Proof.
  destruct x as [|d]; [done|]. intros _ w. split; [apply frame_refl|].
  by intros a [= <-].
Qed.

Lemma keeps_unpack_over_defaults v :
  keeps is_fresh (World.unpack_over_defaults v).
Proof.
  destruct v; try apply keeps_raise.
  eapply keeps_bind; [apply keeps_contents|]. intros d _. by apply keeps_ret.
Qed.

Lemma keeps_json_load (f : content) : keeps (λ _, True) (World.json_load f).
Proof.
  destruct f as [text|bytes]; [|apply keeps_raise]. unfold World.json_load.
  destruct (json_loads text); [by apply keeps_ret|apply keeps_raise].
Qed.

Lemma keeps_save_config x : keeps (λ _, True) (World.save_config x).
Proof.
  eapply keeps_bind; [apply keeps_makedirs|]. intros _ _.
  eapply keeps_bind; [apply keeps_contents|]. intros d _.
  apply keeps_open_write.
Qed.

(** [load_config] never hands out the [DEFAULT_CONFIG] object. *)
Lemma keeps_load_config : keeps is_fresh World.load_config.
Proof.
  apply keeps_try_except.
  - eapply keeps_bind; [apply keeps_open_read|]. intros f _.
    eapply keeps_bind; [apply keeps_json_load|]. intros v _.
    apply keeps_unpack_over_defaults.
  - intros [[]| | |]; try apply keeps_raise.
    + eapply keeps_bind; [apply keeps_makedirs|]. intros _ _.
      eapply keeps_bind; [apply keeps_save_config|]. intros _ _.
      apply keeps_copy.
    + eapply keeps_bind; [apply keeps_save_config|]. intros _ _.
      apply keeps_copy.
Qed.

Lemma keeps_get_config_value key default :
  keeps (λ _, True) (World.get_config_value key default).
Proof.
  eapply keeps_bind; [apply keeps_load_config|]. intros x _.
  eapply keeps_bind; [apply keeps_contents|]. intros d _. by apply keeps_ret.
Qed.

Lemma keeps_set_config_value key value :
  keeps (λ _, True) (World.set_config_value key value).
Proof.
  eapply keeps_bind; [apply keeps_load_config|]. intros x Hx.
  eapply keeps_bind; [by apply keeps_setitem|]. intros x' _.
  apply keeps_save_config.
Qed.

Lemma keeps_reset_to_defaults : keeps is_fresh World.reset_to_defaults.
Proof.
  eapply keeps_bind; [apply keeps_save_config|]. intros _ _. apply keeps_copy.
Qed.

Lemma keeps_run c :
  (∀ p, c ≠ SetPath p) → keeps (λ _, True) (run c).
Proof.
  destruct c as [p| |x|key default|key value|]; simpl; intros Hc.
  - by destruct (Hc p).
  - eapply keeps_bind; [apply keeps_load_config|]. intros. by apply keeps_ret.
  - apply keeps_save_config.
  - eapply keeps_bind; [apply keeps_get_config_value|]. intros.
    by apply keeps_ret.
  - apply keeps_set_config_value.
  - eapply keeps_bind; [apply keeps_reset_to_defaults|]. intros.
    by apply keeps_ret.
Qed.

Lemma run_frame c w :
  World.DEFAULT_CONFIG (snd (run c w)) = World.DEFAULT_CONFIG w
  ∧ World.CONFIG_PATH (snd (run c w))
    = match c with SetPath p => p | _ => World.CONFIG_PATH w end
  ∧ ∀ q, q ≠ World.CONFIG_PATH w →
      data_at (World.root (snd (run c w))) q = data_at (World.root w) q.
Proof.
  destruct c as [p| | | | |] eqn:Hc; [done|..].
  all: rewrite <-Hc;
    destruct (keeps_run c ltac:(by rewrite Hc) w)
      as [(Hpath & Hdefaults & Hfiles) _];
    by rewrite Hc in *.
Qed.

(** *** The world does what the one-path model does *)

Lemma sim_ret {A B} (R : A → B → Prop) a b :
  R a b → simulates R (ret a) (World.ret b).
Proof. intros HR w d Hst Hdef. by repeat split. Qed.

Lemma sim_raise {A B} (R : A → B → Prop) e :
  simulates R (raise e) (World.raise (Exn e)).
Proof. intros w d Hst Hdef. by repeat split. Qed.

Lemma sim_bind {A A' B B'} (R : A → B → Prop) (R' : A' → B' → Prop)
    m mw k kw :
  simulates R m mw →
  (∀ a b, R a b → simulates R' (k a) (kw b)) →
  simulates R' (bind m k) (World.bind mw kw).
Proof.
  intros Hm Hk w d Hst Hdef.
  destruct (Hm w d Hst Hdef) as (Hsame & Hst1 & Hp1 & Hd1).
  unfold returned, disk_after, bind, World.bind in *.
  destruct (m d) as [[a|e] d1], (mw w) as [[b|e'] w1]; simpl in *; try done.
  rewrite <-Hp1 in Hst1.
  destruct (Hk a b Hsame w1 d1 Hst1 Hd1) as (? & ? & ? & ?).
  rewrite Hp1 in *. split_and!; [done..|congruence|done].
Qed.

Lemma sim_try_except {A B} (R : A → B → Prop) body bodyw handler handlerw :
  simulates R body bodyw →
  (∀ e, simulates R (handler e) (handlerw (Exn e))) →
  simulates R (try_except body handler) (World.try_except bodyw handlerw).
Proof.
  intros Hm Hh w d Hst Hdef.
  destruct (Hm w d Hst Hdef) as (Hsame & Hst1 & Hp1 & Hd1).
  unfold returned, disk_after, try_except, World.try_except in *.
  destruct (body d) as [[a|e] d1], (bodyw w) as [[b|e'] w1];
    simpl in *; try done.
  subst e'. rewrite <-Hp1 in Hst1.
  destruct (Hh e w1 d1 Hst1 Hd1) as (? & ? & ? & ?).
  rewrite Hp1 in *. split_and!; [done..|congruence|done].
Qed.

Lemma sim_open_read : simulates eq open_read World.open_read.
Proof.
  intros w d Hst Hdef. unfold World.open_read. simpl.
  rewrite (read_status _ _ _ Hst). by destruct d.
Qed.

Lemma sim_makedirs : simulates eq makedirs World.makedirs.
Proof.
  intros w d Hst Hdef. unfold World.makedirs.
  destruct (mkdirs_status _ _ _ Hst) as (r & -> & Hst' & _). simpl.
  split_and!; [by destruct d|done..].
Qed.

Lemma sim_open_write text :
  simulates eq (open_write text) (World.open_write text).
Proof.
  intros w d Hst Hdef. unfold World.open_write.
  pose proof (write_status _ _ _ text Hst) as Hw. destruct d.
  - by rewrite Hw.
  - by destruct Hw as (r & -> & Hst').
  - by destruct Hw as (r & -> & Hst').
Qed.

Lemma sim_json_load (f : content) :
  simulates eq (json_load f) (World.json_load f).
Proof.
  destruct f as [text|bytes]; [|apply sim_raise].
  unfold json_load, World.json_load.
  destruct (json_loads text); [by apply sim_ret|apply sim_raise].
Qed.

Lemma sim_contents X x :
  x = World.Fresh X ∨ (x = World.TheDefaults ∧ X = DEFAULT_CONFIG) →
  simulates eq (ret X) (World.contents x).
Proof.
  intros [->|[-> ->]] w d Hst Hdef; simpl; by repeat split.
Qed.

Lemma sim_copy_defaults :
  simulates fresh_of (ret DEFAULT_CONFIG) (World.copy World.TheDefaults).
Proof.
  intros w d Hst Hdef. unfold World.copy, World.bind. simpl.
  unfold fresh_of. by rewrite Hdef.
Qed.

Lemma sim_unpack_over_defaults v :
  simulates fresh_of (dict_unpack DEFAULT_CONFIG v)
    (World.unpack_over_defaults v).
Proof.
  destruct v; try apply sim_raise.
  intros w d Hst Hdef. unfold World.unpack_over_defaults, World.bind. simpl.
  unfold fresh_of. by rewrite Hdef.
Qed.

Lemma sim_save_config X x :
  x = World.Fresh X ∨ (x = World.TheDefaults ∧ X = DEFAULT_CONFIG) →
  simulates eq (save_config X) (World.save_config x).
Proof.
  intros Hx. unfold save_config, World.save_config.
  eapply sim_bind; [apply sim_makedirs|]. intros _ _ _.
  change (open_write (json_dumps (JObj X)))
    with (bind (ret X) (λ X', open_write (json_dumps (JObj X')))).
  eapply sim_bind; [by apply sim_contents|]. intros ? ? <-.
  apply sim_open_write.
Qed.

Lemma sim_load_config : simulates fresh_of load_config World.load_config.
Proof.
  apply sim_try_except.
  - eapply sim_bind; [apply sim_open_read|]. intros ? f <-.
    eapply sim_bind; [apply sim_json_load|]. intros ? v <-.
    apply sim_unpack_over_defaults.
  - intros []; [| |apply sim_raise..].
    + eapply sim_bind; [apply sim_makedirs|]. intros _ _ _.
      eapply sim_bind; [apply sim_save_config; by right|]. intros _ _ _.
      apply sim_copy_defaults.
    + eapply sim_bind; [apply sim_save_config; by right|]. intros _ _ _.
      apply sim_copy_defaults.
Qed.

Lemma sim_get_config_value key default :
  simulates eq (get_config_value key default)
    (World.get_config_value key default).
Proof.
  eapply sim_bind; [apply sim_load_config|]. intros config x ->.
  set (k := λ d : dict, ret (match d !! key with
    | Some v => v
    | None => match default with Some d' => d' | None => JNull end
    end)).
  change (ret _) with (bind (ret config) k).
  eapply sim_bind; [apply sim_contents; by left|]. intros ? ? <-.
  by apply sim_ret.
Qed.

Lemma sim_set_config_value key value :
  simulates eq (set_config_value key value)
    (World.set_config_value key value).
Proof.
  eapply sim_bind; [apply sim_load_config|]. intros config x ->.
  change (save_config (<[key := value]> config))
    with (bind (ret (<[key := value]> config)) save_config).
  eapply (sim_bind fresh_of).
  - intros w d Hst Hdef. by repeat split.
  - intros X x' ->. apply sim_save_config. by left.
Qed.

Lemma sim_reset_to_defaults :
  simulates fresh_of reset_to_defaults World.reset_to_defaults.
Proof.
  eapply sim_bind; [apply sim_save_config; by right|]. intros _ _ _.
  apply sim_copy_defaults.
Qed.

(** *** Properties *)

Lemma with_root_same w : World.with_root (World.root w) w = w.
Proof. by destruct w. Qed.

Lemma targets_cons w c calls q :
  q ∉ targets w (c :: calls) →
  q ≠ World.CONFIG_PATH w ∧ q ∉ targets (snd (run c w)) calls.
Proof.
  unfold targets. destruct (run_frame c w) as (_ & -> & _).
  intros [Hq Hrest]%not_elem_of_cons. split; [done|].
  destruct c; simpl in Hrest |- *; [done|by apply not_elem_of_cons..].
Qed.

Lemma calls_frame calls w :
  World.DEFAULT_CONFIG (exec calls w) = World.DEFAULT_CONFIG w
  ∧ ∀ q, q ∉ targets w calls →
      data_at (World.root (exec calls w)) q = data_at (World.root w) q.
Proof.
  revert w. induction calls as [|c calls IH]; intros w; [done|].
  destruct (IH (snd (run c w))) as [Hdef Hfiles].
  destruct (run_frame c w) as (Hdef' & _ & Hfiles').
  split; [simpl; congruence|].
  intros q [Hq Hq']%targets_cons. simpl. rewrite Hfiles by done.
  by apply Hfiles'.
Qed.

(** X11: whatever calls a client makes, and wherever it points
    [CONFIG_PATH] in between, the module writes no file but those at the
    paths [CONFIG_PATH] took (every other file keeps what it holds, text or
    not), and it never changes the [DEFAULT_CONFIG] object. *)
Theorem calls_touch_only_config_path calls w :
  World.DEFAULT_CONFIG (exec calls w) = World.DEFAULT_CONFIG w
  ∧ (∀ q, q ∉ targets w calls →
       file_at (World.root (exec calls w)) q = file_at (World.root w) q)
  ∧ (∀ q, q ∉ targets w calls →
       data_at (World.root (exec calls w)) q = data_at (World.root w) q).
Proof.
  destruct (calls_frame calls w) as [Hdef Hfiles]. split_and!; [done| |done].
  intros q Hq. unfold file_at. by rewrite Hfiles.
Qed.

(** X12: the operating-system errors the module has no handler for come
    out as they are.  With a directory at [CONFIG_PATH], or a regular file
    among its parents, every operation raises one of them and changes
    nothing: no repair, no file, no directory. *)
Theorem unhandled_os_errors w key default value x :
  status (World.root w) (World.CONFIG_PATH w) = None →
  ∃ e1 e2,
    os_error e1 = true ∧ os_error e2 = true
    ∧ World.load_config w = (Raises e1, w)
    ∧ World.get_config_value key default w = (Raises e1, w)
    ∧ World.set_config_value key value w = (Raises e1, w)
    ∧ World.save_config x w = (Raises e2, w)
    ∧ World.reset_to_defaults w = (Raises e2, w).
Proof.
  intros Hst. destruct (blocked_path _ _ Hst) as [(e1 & Hread & He1) Hsave].
  assert (World.load_config w = (Raises e1, w)) as Hload.
  { unfold World.load_config, World.try_except, World.bind, World.open_read.
    rewrite Hread. by destruct e1. }
  assert (∃ e2, os_error e2 = true
                ∧ ∀ y, World.save_config y w = (Raises e2, w))
    as (e2 & He2 & Hs).
  { unfold World.save_config, World.bind, World.makedirs, World.open_write,
      World.contents.
    destruct Hsave as [(e2 & Hmk & He2)|[Hmk Hw]].
    - exists e2. split; [done|]. intros y. by rewrite Hmk.
    - exists IsADirectoryError. split; [done|]. intros y.
      rewrite Hmk. simpl. by rewrite Hw, with_root_same. }
  exists e1, e2. unfold World.get_config_value, World.set_config_value,
    World.reset_to_defaults, World.bind.
  by rewrite Hload, !Hs.
Qed.

(** X13: [load_config] and [reset_to_defaults] never hand out the
    [DEFAULT_CONFIG] object itself, only a dictionary of its own; so a
    caller who changes an entry of what it was given leaves the defaults as
    they are. *)
Theorem defaults_never_aliased w x w' key value :
  World.load_config w = (Returns x, w')
  ∨ World.reset_to_defaults w = (Returns x, w') →
  x ≠ World.TheDefaults
  ∧ World.DEFAULT_CONFIG w' = World.DEFAULT_CONFIG w
  ∧ World.DEFAULT_CONFIG (snd (World.setitem x key value w'))
    = World.DEFAULT_CONFIG w.
Proof.
  intros Hrun.
  assert (is_fresh x ∧ frame w w') as [Hx (_ & Hdef & _)].
  { destruct Hrun as [Hrun|Hrun].
    - destruct (keeps_load_config w) as [Hframe Hpost].
      rewrite Hrun in *. split; [by apply Hpost|done].
    - destruct (keeps_reset_to_defaults w) as [Hframe Hpost].
      rewrite Hrun in *. split; [by apply Hpost|done]. }
  by destruct x.
Qed.

(** X14: the first load on a path creates what is missing, directories
    included.  Where there is no file and nothing is in the way,
    [load_config] returns a new dictionary with the defaults, every
    directory down to the parent of [CONFIG_PATH] exists afterwards, and
    the file holds the serialized defaults. *)
Theorem load_config_creates_directories w d q :
  status (World.root w) (World.CONFIG_PATH w) = Some d →
  absent d →
  World.DEFAULT_CONFIG w = DEFAULT_CONFIG →
  q `prefix_of` parent (World.CONFIG_PATH w) →
  fst (World.load_config w) = Returns (World.Fresh DEFAULT_CONFIG)
  ∧ is_dir (World.root (snd (World.load_config w))) q = true
  ∧ file_at (World.root (snd (World.load_config w))) (World.CONFIG_PATH w)
    = Some (json_dumps (JObj DEFAULT_CONFIG)).
Proof.
  intros Hst Habsent Hdef Hq.
  destruct (sim_load_config w d Hst Hdef) as (Hsame & Hst' & _ & _).
  unfold returned, disk_after in *.
  rewrite (load_config_absent _ Habsent) in *. simpl in *.
  destruct (World.load_config w) as [[x|e] w']; simpl in *; [|done].
  split_and!.
  - by rewrite Hsame.
  - by eapply status_parent_is_dir.
  - by apply status_file_at.
Qed.

(** What [get_config_value] returns under [p] depends on the file at [p]
    and on the defaults only. *)
Lemma get_config_value_at w1 w2 p text key default :
  file_at (World.root w1) p = Some text →
  file_at (World.root w2) p = Some text →
  World.DEFAULT_CONFIG w1 = DEFAULT_CONFIG →
  World.DEFAULT_CONFIG w2 = DEFAULT_CONFIG →
  fst (World.get_config_value key default (World.with_path p w1))
  = fst (World.get_config_value key default (World.with_path p w2)).
Proof.
  intros Hf1%status_file_at Hf2%status_file_at Hd1 Hd2.
  destruct (sim_get_config_value key default (World.with_path p w1)
              (File text) Hf1 Hd1) as (Hsame1 & _).
  destruct (sim_get_config_value key default (World.with_path p w2)
              (File text) Hf2 Hd2) as (Hsame2 & _).
  destruct (returned (get_config_value key default) (File text)),
    (fst (World.get_config_value _ _ (World.with_path p w1))),
    (fst (World.get_config_value _ _ (World.with_path p w2)));
    simpl in *; try done; congruence.
Qed.

(** X15: a configuration file is out of reach while [CONFIG_PATH] is
    elsewhere.  Whatever calls are made under other paths, after pointing
    [CONFIG_PATH] back at [p], [get_config_value] gives what it would have
    given before them. *)
Theorem other_paths_do_not_interfere w p text calls key default :
  file_at (World.root w) p = Some text →
  World.DEFAULT_CONFIG w = DEFAULT_CONFIG →
  p ∉ targets w calls →
  fst (World.get_config_value key default
         (World.with_path p (exec calls w)))
  = fst (World.get_config_value key default (World.with_path p w)).
Proof.
  intros Hfile Hdef Hp.
  destruct (calls_frame calls w) as [Hdef' Hfiles].
  apply (get_config_value_at _ _ _ text); [|done|congruence|done].
  unfold file_at in *. by rewrite Hfiles.
Qed.

(** X16: a setting is stored in the file, not in the module.  A value set
    under [p] is there again after [CONFIG_PATH] has been pointed elsewhere,
    used there, and pointed back. *)
Theorem setting_survives_path_switch w p d key value default calls q :
  status (World.root w) p = Some d →
  config_state d = true →
  World.DEFAULT_CONFIG w = DEFAULT_CONFIG →
  p ∉ q :: omap (λ c, match c with SetPath p' => Some p' | _ => None end)
             calls →
  fst (World.get_config_value key default
         (World.with_path p
            (exec calls
               (World.with_path q
                  (snd (World.set_config_value key value
                          (World.with_path p w)))))))
  = Returns value.
Proof.
  intros Hst Hd Hdef Hp.
  destruct (sim_set_config_value key value (World.with_path p w) d Hst Hdef)
    as (_ & Hst1 & _ & Hdef1).
  set (w1 := snd (World.set_config_value key value (World.with_path p w))) in *.
  unfold disk_after in Hst1. rewrite (set_config_value_run _ _ _ Hd) in Hst1.
  simpl in Hst1.
  destruct (calls_frame calls (World.with_path q w1)) as [Hdef2 Hfiles].
  set (w2 := exec calls (World.with_path q w1)) in *.
  assert (status (World.root (World.with_path p w2))
            (World.CONFIG_PATH (World.with_path p w2))
          = Some (File (json_dumps (JObj
              (<[key := value]> (persisted d ∪ DEFAULT_CONFIG)))))) as Hst2.
  { apply status_data_at. simpl. rewrite Hfiles by done.
    by apply status_data_at. }
  destruct (sim_get_config_value key default (World.with_path p w2) _ Hst2)
    as (Hsame & _); [simpl in *; congruence|].
  unfold returned in Hsame.
  rewrite get_config_value_run in Hsame by apply config_state_saved.
  rewrite persisted_saved, insert_union_defaults, lookup_insert_eq in Hsame.
  simpl in Hsame.
  by destruct (fst (World.get_config_value _ _ _)); simpl in Hsame; subst.
Qed.

(** With nothing in the way, [save_config] writes the entries its
    argument holds at the call. *)
Lemma world_save_config_run w x d :
  status (World.root w) (World.CONFIG_PATH w) = Some d →
  ∃ r, World.save_config x w = (Returns tt, World.with_root r w)
    ∧ status r (World.CONFIG_PATH w)
      = Some (File (json_dumps (JObj (match x with
                                      | World.TheDefaults =>
                                          World.DEFAULT_CONFIG w
                                      | World.Fresh X => X
                                      end)))).
Proof.
  intros Hst. unfold World.save_config, World.bind, World.makedirs,
    World.open_write, World.contents.
  destruct (mkdirs_status _ _ _ Hst) as (r1 & -> & Hst1 & _). simpl.
  pose proof (write_status _ _ _
    (json_dumps (JObj (match x with
                       | World.TheDefaults => World.DEFAULT_CONFIG w
                       | World.Fresh X => X
                       end))) Hst1) as Hw.
  destruct d; simpl in Hw; destruct Hw as (r2 & -> & Hst2); by exists r2.
Qed.

(** X17: the defaults are whatever the [DEFAULT_CONFIG] object holds at
    the call.  After a caller has run [DEFAULT_CONFIG[key] = value],
    [reset_to_defaults] writes and returns the changed entries, [value] at
    [key] included. *)
Theorem reset_uses_current_defaults w d key value :
  status (World.root w) (World.CONFIG_PATH w) = Some d →
  ∃ w',
    World.bind (World.setitem World.TheDefaults key value)
      (λ _, World.reset_to_defaults) w
    = (Returns (World.Fresh (<[key := value]> (World.DEFAULT_CONFIG w))), w')
    ∧ file_at (World.root w') (World.CONFIG_PATH w)
      = Some (json_dumps (JObj (<[key := value]> (World.DEFAULT_CONFIG w)))).
Proof.
  intros Hst. unfold World.bind at 1. simpl.
  destruct (world_save_config_run
              (World.with_defaults (<[key := value]> (World.DEFAULT_CONFIG w)) w)
              World.TheDefaults d Hst) as (r & Hsave & Hst').
  unfold World.reset_to_defaults, World.bind. rewrite Hsave. simpl.
  eexists. split; [done|]. simpl. by apply status_file_at.
Qed.

End Facts.

End WorldFacts.

(** * The further properties on the sample files and worlds *)

Section MoreRuns.
Import Fs Client Samples WorldSamples WorldFacts.

Lemma load_config_read_only_witness :
  disk_after load_config (File custom_config_text) = File custom_config_text
  ∧ disk_after (get_config_value "custom_setting" None)
      (File custom_config_text) = File custom_config_text.
Proof.
  apply (load_config_read_only custom_config_text custom_config).
  by vm_compute.
Defined.

Lemma not_a_mapping_raises_witness :
  load_config (File array_text) = (Raise TypeError, File array_text)
  ∧ get_config_value "min_liked_for_artist" None (File array_text)
    = (Raise TypeError, File array_text)
  ∧ set_config_value "min_liked_for_artist" (JInt 5) (File array_text)
    = (Raise TypeError, File array_text).
Proof.
  apply (not_a_mapping_raises array_text (JList [JInt 1; JInt 2])).
  - by vm_compute.
  - done.
Defined.

Lemma handled_exceptions_never_escape_witness :
  returned load_config (File array_text) = Raise TypeError
  ∧ returned (get_config_value "min_liked_for_artist" None)
      (File (Bytes undecodable_bytes)) = Raise UnicodeDecodeError
  ∧ disk_after (set_config_value "min_liked_for_artist" (JInt 5))
      (File (Bytes undecodable_bytes)) = File (Bytes undecodable_bytes).
Proof.
  destruct (handled_exceptions_never_escape ∅ "min_liked_for_artist" None
              (JInt 5) (File array_text)) as (_ & _ & Hload & _).
  destruct (handled_exceptions_never_escape ∅ "min_liked_for_artist" None
              (JInt 5) (File (Bytes undecodable_bytes)))
    as (_ & _ & _ & Hget & _ & Hdisk).
  split_and!.
  - apply Hload. by vm_compute.
  - by apply Hget.
  - by destruct (Hdisk UnicodeDecodeError) as (_ & _ & _ & ->).
Defined.

Lemma set_then_get_witness :
  returned (set_config_value "min_liked_for_artist" (JInt 5) ;;
            get_config_value "min_liked_for_artist" None) NoFile
  = Ok (JInt 5).
Proof. apply set_then_get. reflexivity. Defined.

Lemma set_config_value_file_witness :
  ∃ text m,
    disk_after (set_config_value "min_liked_for_artist" (JInt 5))
      (File custom_config_text) = File text
    ∧ json_loads text = Some (JObj m)
    ∧ m !! "min_liked_for_artist" = Some (JInt 5)
    ∧ m !! "custom_setting" = Some (JStr "test")
    ∧ dom DEFAULT_CONFIG ⊆ dom m.
Proof.
  destruct (set_config_value_file "min_liked_for_artist" (JInt 5)
              (File custom_config_text))
    as (text & m & Hdisk & Hloads & Hm & Hk & Hdef & _); [by vm_compute|].
  exists text, m. split_and!; [done..| |done].
  rewrite Hm. by vm_compute.
Defined.

Lemma set_config_value_sequence_witness :
  ∃ before after,
    returned load_config NoFile = Ok before
    ∧ returned (set_config_value "setting_one" (JStr "value_one") ;;
                set_config_value "setting_two" (JStr "value_two") ;;
                set_config_value "setting_one" (JStr "updated_value") ;;
                load_config) NoFile = Ok after
    ∧ after = <["setting_one" := JStr "updated_value"]>
                (<["setting_two" := JStr "value_two"]> before)
    ∧ after !! "setting_one" = Some (JStr "updated_value")
    ∧ after !! "setting_two" = Some (JStr "value_two").
Proof.
  apply (set_config_value_sequence "setting_one" "setting_two");
    [reflexivity|done].
Defined.

Lemma load_config_agrees_with_disk_witness :
  ∃ text D,
    disk_after load_config (File custom_config_text) = File text
    ∧ json_loads text = Some (JObj D)
    ∧ custom_config ∪ DEFAULT_CONFIG = D ∪ DEFAULT_CONFIG.
Proof.
  apply (load_config_agrees_with_disk (File custom_config_text)).
  unfold returned. by rewrite (load_config_valid _ _ custom_config_text_loads).
Defined.

Lemma get_config_value_creates_file_witness :
  returned (get_config_value "min_liked_for_artist" (Some JNull)) NoDir
  = Ok (JInt 1)
  ∧ disk_after (get_config_value "min_liked_for_artist" (Some JNull)) NoDir
    = File (json_dumps (JObj DEFAULT_CONFIG)).
Proof.
  apply (get_config_value_creates_file "min_liked_for_artist" JNull NoDir).
  by left.
Defined.

Lemma calls_touch_only_config_path_witness :
  file_at (World.root (exec test_calls (World.with_path temp_path in_use)))
    config_path
  = Some custom_config_text.
Proof.
  destruct (calls_touch_only_config_path test_calls
              (World.with_path temp_path in_use)) as (_ & Hfiles & _).
  rewrite Hfiles; [done|]. apply (bool_decide_unpack _). by vm_compute.
Defined.

Lemma unhandled_os_errors_witness :
  status (World.root at_directory) (World.CONFIG_PATH at_directory) = None
  ∧ ∃ e1 e2,
      os_error e1 = true ∧ os_error e2 = true
      ∧ World.load_config at_directory = (Raises e1, at_directory)
      ∧ World.get_config_value "min_liked_for_artist" None at_directory
        = (Raises e1, at_directory)
      ∧ World.set_config_value "min_liked_for_artist" (JInt 5) at_directory
        = (Raises e1, at_directory)
      ∧ World.save_config (World.Fresh test_config) at_directory
        = (Raises e2, at_directory)
      ∧ World.reset_to_defaults at_directory = (Raises e2, at_directory).
Proof.
  split; [reflexivity|]. apply unhandled_os_errors. reflexivity.
Defined.

Lemma defaults_never_aliased_witness :
  World.DEFAULT_CONFIG
    (snd (World.setitem (World.Fresh DEFAULT_CONFIG) "default_shuffle"
            (JBool false) (snd (World.load_config first_run))))
  = World.DEFAULT_CONFIG first_run.
Proof.
  apply (defaults_never_aliased first_run (World.Fresh DEFAULT_CONFIG)
           (snd (World.load_config first_run))).
  left. by vm_compute.
Defined.

Lemma load_config_creates_directories_witness :
  status (World.root first_run) (World.CONFIG_PATH first_run) = Some NoDir
  ∧ fst (World.load_config first_run) = Returns (World.Fresh DEFAULT_CONFIG)
  ∧ is_dir (World.root (snd (World.load_config first_run)))
      ["home"; "alice"; ".config"; "spotisonic"] = true
  ∧ file_at (World.root (snd (World.load_config first_run))) config_path
    = Some (json_dumps (JObj DEFAULT_CONFIG)).
Proof.
  split; [reflexivity|].
  apply (load_config_creates_directories first_run NoDir);
    [reflexivity|exact I|reflexivity|by exists []].
Defined.

Lemma other_paths_do_not_interfere_witness :
  fst (World.get_config_value "default_preview_length" None
         (World.with_path config_path
            (exec test_calls (World.with_path temp_path in_use))))
  = fst (World.get_config_value "default_preview_length" None
           (World.with_path config_path (World.with_path temp_path in_use))).
Proof.
  apply (other_paths_do_not_interfere _ _ custom_config_text);
    [reflexivity|reflexivity|].
  apply (bool_decide_unpack _). by vm_compute.
Defined.

Lemma setting_survives_path_switch_witness :
  fst (World.get_config_value "setting_one" None
         (World.with_path temp_path
            (exec test_calls
               (World.with_path config_path
                  (snd (World.set_config_value "setting_one"
                          (JStr "value_one")
                          (World.with_path temp_path in_use)))))))
  = Returns (JStr "value_one").
Proof.
  apply (setting_survives_path_switch in_use temp_path NoFile);
    [reflexivity|reflexivity|reflexivity|].
  apply (bool_decide_unpack _). by vm_compute.
Defined.

Lemma reset_uses_current_defaults_witness :
  ∃ w',
    World.bind (World.setitem World.TheDefaults "default_shuffle" (JBool false))
      (λ _, World.reset_to_defaults) first_run
    = (Returns (World.Fresh (<["default_shuffle" := JBool false]>
                               DEFAULT_CONFIG)), w')
    ∧ file_at (World.root w') config_path
      = Some (json_dumps (JObj (<["default_shuffle" := JBool false]>
                                  DEFAULT_CONFIG))).
Proof. apply (reset_uses_current_defaults first_run NoDir). reflexivity. Defined.

End MoreRuns.
